(** * zc_io: zero-copy I/O over a growable memory-mapped file

    A shallow embedding of [zc_io.c] (the [zc_file] handle and its
    operations [zc_open], [zc_read_start], [zc_read_end], [zc_write_start],
    [zc_write_end], [zc_lseek]) together with the properties of its
    read/write window protocol.

    Target: Linux on an LP64 machine ([mremap] is Linux-only), so [long],
    [off_t] are 64-bit signed, [size_t] is 64-bit unsigned and [int] is
    32-bit signed.  Conversions between them wrap around, as gcc defines
    them. *)

From Stdlib Require Import ZArith List Lia Bool.
From Stdlib.Strings Require Import Byte.
From Stdlib.Strings Require String.
Import ListNotations.
Open Scope Z_scope.

(** ** Machine integers *)

Module CInt.

Definition two_31 : Z := 2147483648.
Definition two_32 : Z := 4294967296.
Definition two_63 : Z := 9223372036854775808.
Definition two_64 : Z := 18446744073709551616.

Definition INT_MAX : Z := two_31 - 1.
Definition LONG_MAX : Z := two_63 - 1.
Definition LONG_MIN : Z := - two_63.
Definition OFF_MAX : Z := two_63 - 1.
Definition SIZE_MAX : Z := two_64 - 1.

(** Conversion to a 32-bit [int]. *)
Definition to_int (x : Z) : Z := (x + two_31) mod two_32 - two_31.

(** Conversion to a 64-bit [long]; [off_t] is the same type here. *)
Definition to_long (x : Z) : Z := (x + two_63) mod two_64 - two_63.
Definition to_off_t (x : Z) : Z := to_long x.

(** Conversion to [size_t]. *)
Definition to_size_t (x : Z) : Z := x mod two_64.

(** The values a [size_t] and a [long] (or [off_t]) can take. *)
Definition is_size_t (x : Z) : Prop := 0 <= x <= SIZE_MAX.
Definition is_long (x : Z) : Prop := LONG_MIN <= x <= LONG_MAX.

End CInt.
Import CInt.

(** ** POSIX semaphores

    A [sem_t] is its counter.  [sem_wait] returns only once it has
    decremented a positive counter: on a counter that is not positive the
    caller blocks, which is [None] here (the call does not return unless
    another thread posts). *)

Definition sem_t := Z.

Definition sem_init (value : Z) : sem_t := value.

Definition sem_wait (s : sem_t) : option sem_t :=
  if 0 <? s then Some (s - 1) else None.

Definition sem_post (s : sem_t) : sem_t := s + 1.

(** ** The handle *)

(** What the kernel keeps behind the file descriptor: the length of the
    backing file.  The file's bytes are those of the shared mapping. *)
Record backing_store : Type := mk_backing { st_size : Z }.

(** [struct zc_file].  [base_ptr] is modelled by the bytes of the mapping
    it points to; [mutex] and [room_empty] by the semaphores they point
    to. *)
Record zc_file : Type := mk_zc_file {
  base_ptr : list byte;
  fd : backing_store;
  size : Z;
  offset : Z;
  mutex : sem_t;
  room_empty : sem_t;
  n_readers : Z
}.

Definition set_mapping (file : zc_file) (b : list byte) (sz : Z) : zc_file :=
  mk_zc_file b (fd file) sz (offset file) (mutex file) (room_empty file)
             (n_readers file).

Definition set_fd (file : zc_file) (d : backing_store) : zc_file :=
  mk_zc_file (base_ptr file) d (size file) (offset file) (mutex file)
             (room_empty file) (n_readers file).

Definition set_offset (file : zc_file) (o : Z) : zc_file :=
  mk_zc_file (base_ptr file) (fd file) (size file) o (mutex file)
             (room_empty file) (n_readers file).

Definition set_mutex (file : zc_file) (s : sem_t) : zc_file :=
  mk_zc_file (base_ptr file) (fd file) (size file) (offset file) s
             (room_empty file) (n_readers file).

Definition set_room_empty (file : zc_file) (s : sem_t) : zc_file :=
  mk_zc_file (base_ptr file) (fd file) (size file) (offset file) (mutex file)
             s (n_readers file).

Definition set_n_readers (file : zc_file) (n : Z) : zc_file :=
  mk_zc_file (base_ptr file) (fd file) (size file) (offset file) (mutex file)
             (room_empty file) n.

(** A pointer into the mapping is the index of the byte it points to;
    [None] is [NULL]. *)
Definition view := option Z.

(** ** System calls

    The outcome of each system call is supplied by the world the call runs
    in. *)

(** [open], [fstat] and [mmap] as seen by [zc_open]: [opened] is the
    content of the file at the path ([[]] when [O_CREAT] has just created
    it), or [None] when [open] fails. *)
Record open_world : Type := mk_open_world {
  opened : option (list byte);
  fstat_ok : bool;
  mmap_ok : bool
}.

(** [ftruncate], [mremap] as seen by [zc_write_start]: [fresh_pages] is
    what the newly mapped tail holds before the code touches it. *)
Record grow_world : Type := mk_grow_world {
  ftruncate_ok : bool;
  mremap_ok : bool;
  fresh_pages : list byte
}.

(** Bytes [0 .. len) of a shared mapping over [content]. *)
Definition mmap (w : open_world) (content : list byte) (len : Z)
  : option (list byte) :=
  if mmap_ok w
  then Some (firstn (Z.to_nat len) (content ++ repeat x00 (Z.to_nat len)))
  else None.

(** [ftruncate] rejects a negative length with [EINVAL] whatever the
    world. *)
Definition ftruncate (w : grow_world) (d : backing_store) (length : Z)
  : option backing_store :=
  if length <? 0 then None
  else if ftruncate_ok w then Some (mk_backing length) else None.

(** [mremap (old, old_size, new_size, MREMAP_MAYMOVE)]: the pages of the
    old mapping followed by fresh ones. *)
Definition mremap (w : grow_world) (old : list byte) (old_size new_size : Z)
  : option (list byte) :=
  if mremap_ok w
  then Some (firstn (Z.to_nat new_size)
               (firstn (Z.to_nat old_size) old ++ fresh_pages w
                  ++ repeat x00 (Z.to_nat new_size)))
  else None.

(** [memset (mem + start, c, n)]. *)
Definition memset (mem : list byte) (start : Z) (c : byte) (n : Z)
  : list byte :=
  firstn (Z.to_nat start) mem ++ repeat c (Z.to_nat n)
    ++ skipn (Z.to_nat (start + n)) mem.

(** [whence] values of [<unistd.h>]. *)
Definition SEEK_SET : Z := 0.
Definition SEEK_CUR : Z := 1.
Definition SEEK_END : Z := 2.

(** ** The operations *)

Definition zc_open (w : open_world) : option zc_file :=
  match opened w with
  | None => None
  | Some content =>
    if negb (fstat_ok w) then None
    else
      let stat_size := Z.of_nat (length content) in
      let file_size := if stat_size =? 0 then 1 else stat_size in
      match mmap w content file_size with
      | None => None
      | Some map_ptr =>
        Some (mk_zc_file map_ptr (mk_backing stat_size) file_size 0
                (sem_init 1) (sem_init 1) 0)
      end
  end.

(** [zc_read_start]: the result is the returned pointer, the value left
    in [*size], and the handle. *)
Definition zc_read_start (file : zc_file) (sz : Z)
  : option (view * Z * zc_file) :=
  match sem_wait (mutex file) with
  | None => None
  | Some m =>
    let n := to_int (n_readers file + 1) in
    match (if n =? 1 then sem_wait (room_empty file)
           else Some (room_empty file)) with
    | None => None
    | Some r =>
      let file1 :=
        set_mutex (set_room_empty (set_n_readers file n) r) (sem_post m) in
      if offset file1 >=? size file1 then Some (None, 0, file1)
      else
        let remaining_size := to_long (size file1 - offset file1) in
        let sz' :=
          if to_long sz >? remaining_size then to_size_t remaining_size
          else sz in
        let file_ptr := offset file1 in
        Some (Some file_ptr, sz',
              set_offset file1 (to_off_t (offset file1 + sz')))
    end
  end.

Definition zc_read_end (file : zc_file) : option zc_file :=
  match sem_wait (mutex file) with
  | None => None
  | Some m =>
    let n := to_int (n_readers file - 1) in
    let r := if n =? 0 then sem_post (room_empty file) else room_empty file in
    Some (set_mutex (set_room_empty (set_n_readers file n) r) (sem_post m))
  end.

Definition zc_write_start (w : grow_world) (file : zc_file) (sz : Z)
  : option (view * zc_file) :=
  match sem_wait (room_empty file) with
  | None => None
  | Some r =>
    let file1 := set_room_empty file r in
    let remaining_size := to_long (size file1 - offset file1) in
    if to_long sz >? remaining_size then
      let new_size := to_off_t (offset file1 + sz) in
      match ftruncate w (fd file1) new_size with
      | None => Some (None, file1)
      | Some d =>
        let file2 := set_fd file1 d in
        match mremap w (base_ptr file2) (size file2) new_size with
        | None => Some (None, file2)
        | Some new_base_ptr =>
          let zeroed :=
            memset new_base_ptr (size file2) x00
                   (to_size_t (new_size - size file2)) in
          let file3 := set_mapping file2 zeroed new_size in
          Some (Some (offset file3),
                set_offset file3 (to_off_t (offset file3 + sz)))
        end
      end
    else
      Some (Some (offset file1),
            set_offset file1 (to_off_t (offset file1 + sz)))
  end.

(** [msync_ok] is the outcome of [msync]; its failure is only printed. *)
Definition zc_write_end (msync_ok : bool) (file : zc_file) : zc_file :=
  set_room_empty file (sem_post (room_empty file)).

(** [zc_lseek]: the result is the returned [off_t] and the handle. *)
Definition zc_lseek (file : zc_file) (off : Z) (whence : Z)
  : option (Z * zc_file) :=
  match sem_wait (room_empty file) with
  | None => None
  | Some r =>
    let file1 := set_room_empty file r in
    let new_offset :=
      if whence =? SEEK_SET then to_off_t off
      else if whence =? SEEK_CUR then to_off_t (offset file1 + off)
      else if whence =? SEEK_END then to_off_t (size file1 + off)
      else -1 in
    if new_offset <? 0 then Some (-1, file1)
    else
      Some (new_offset,
            set_room_empty (set_offset file1 new_offset)
                           (sem_post (room_empty file1)))
  end.

(** ** What the caller does with a window *)

(** Storing [data] through a write view: the bytes land in the mapping
    when the window lies inside it; outside it the store is undefined
    ([None]).  Only the bounds of the mapping are modelled: the fault the
    kernel raises on a mapped page that lies wholly past the end of the
    backing file is not. *)
Definition poke (file : zc_file) (ptr : Z) (data : list byte)
  : option zc_file :=
  if (0 <=? ptr) && (ptr + Z.of_nat (length data)
                       <=? Z.of_nat (length (base_ptr file)))
  then Some (set_mapping file
               (firstn (Z.to_nat ptr) (base_ptr file) ++ data
                  ++ skipn (Z.to_nat ptr + length data) (base_ptr file))
               (size file))
  else None.

(** The [len] bytes seen through a view that lies inside the mapping; a
    [NULL] view shows none. *)
Definition window (file : zc_file) (v : view) (len : Z) : list byte :=
  match v with
  | None => []
  | Some ptr => firstn (Z.to_nat len) (skipn (Z.to_nat ptr) (base_ptr file))
  end.

(** Bytes [lo .. hi) of the mapping. *)
Definition bytes_between (file : zc_file) (lo hi : Z) : list byte :=
  firstn (Z.to_nat (hi - lo)) (skipn (Z.to_nat lo) (base_ptr file)).

(** ** Well-formed handles *)

(** The mapping has [size] bytes and [size], [offset] are file offsets. *)
Definition mapped (file : zc_file) : Prop :=
  Z.of_nat (length (base_ptr file)) = size file /\
  1 <= size file <= OFF_MAX.

Definition cursor_ok (file : zc_file) : Prop :=
  0 <= offset file <= OFF_MAX.

(** No window is open: both semaphores are free and no reader is counted,
    as [zc_open] leaves them. *)
Definition quiescent (file : zc_file) : Prop :=
  mutex file = 1 /\ room_empty file = 1 /\ n_readers file = 0.

(** The mapped length agrees with the length of the backing file, up to
    the one-byte mapping of a file that is still empty. *)
Definition size_consistent (file : zc_file) : Prop :=
  size file = st_size (fd file) \/
  (st_size (fd file) = 0 /\ size file = 1).

(** A reader can enter without waiting: the counter mutex is free, and
    the room is free or already held by the readers inside. *)
Definition readable (file : zc_file) : Prop :=
  0 < mutex file /\
  0 <= n_readers file < INT_MAX /\
  (n_readers file = 0 -> 0 < room_empty file).

(** The position [zc_lseek] is asked for: [off] from the start, from the
    cursor or from the mapped length; [None] for any other mode. *)
Definition seek_target (file : zc_file) (off whence : Z) : option Z :=
  if whence =? SEEK_SET then Some off
  else if whence =? SEEK_CUR then Some (offset file + off)
  else if whence =? SEEK_END then Some (size file + off)
  else None.

(** ** Sample handles and worlds *)

Definition abc : list byte := [x61; x62; x63].
Definition xyz : list byte := [x78; x79; x7a].
Definition hello : list byte := [x68; x65; x6c; x6c; x6f].

(** A world where [open], [fstat] and [mmap] succeed on a file holding
    [content]. *)
Definition world_with (content : list byte) : open_world :=
  mk_open_world (Some content) true true.

(** Growth succeeds; the fresh pages hold junk until they are cleared. *)
Definition growing : grow_world :=
  mk_grow_world true true (repeat xff 16).

(** [ftruncate] succeeds, [mremap] then fails. *)
Definition remap_failing : grow_world := mk_grow_world true false [].

(** The handle [zc_open] returns on a new, empty file. *)
Definition empty_file : zc_file :=
  mk_zc_file [x00] (mk_backing 0) 1 0 1 1 0.

(** The handle [zc_open] returns on a file holding ["abc"]. *)
Definition abc_file : zc_file :=
  mk_zc_file abc (mk_backing 3) 3 0 1 1 0.

(** The handle a call leaves behind, for chaining calls on samples. *)
Definition after_write_start (w : grow_world) (file : zc_file) (sz : Z)
  : zc_file :=
  match zc_write_start w file sz with
  | Some (_, file') => file'
  | None => file
  end.

Definition after_poke (file : zc_file) (ptr : Z) (data : list byte)
  : zc_file :=
  match poke file ptr data with
  | Some file' => file'
  | None => file
  end.

Definition after_lseek (file : zc_file) (off whence : Z) : zc_file :=
  match zc_lseek file off whence with
  | Some (_, file') => file'
  | None => file
  end.

(** ** Threads sharing one handle

    The synchronisation skeleton of the operations, one step per
    semaphore call or access to [n_readers], for a pool of threads that
    each pair every start call with its end call.  What the operations do
    to the mapping and the cursor between those steps is left out: it does
    not touch the semaphores or the counter. *)

Record sync : Type := mk_sync {
  s_mutex : sem_t;
  s_room_empty : sem_t;
  s_n_readers : Z
}.

Definition sync_of (file : zc_file) : sync :=
  mk_sync (mutex file) (room_empty file) (n_readers file).

(** Where a thread stands; the line of [zc_io.c] it is about to run. *)
Inductive pc : Type :=
| Idle
| RS_wait_mutex   (* zc_read_start, line 100 *)
| RS_incr         (* line 101 *)
| RS_test         (* line 102 *)
| RS_wait_room    (* line 104 *)
| RS_post_mutex   (* line 106 *)
| Reading         (* lines 108-124, then the caller reads the view *)
| RE_wait_mutex   (* zc_read_end, line 131 *)
| RE_decr         (* line 132 *)
| RE_test         (* line 133 *)
| RE_post_room    (* line 135 *)
| RE_post_mutex   (* line 137 *)
| WS_wait_room    (* zc_write_start, line 142 *)
| Writing         (* lines 143-170, then the caller fills the view *)
| WE_post_room    (* zc_write_end, lines 175-179 *)
| LS_wait_room    (* zc_lseek, line 184 *)
| Seeking         (* lines 185-209 *)
| LS_post_room.   (* line 210 *)

(** The moves of one thread: the successors of [(s, p)]; none when the
    thread is blocked in [sem_wait]. *)
Definition thread_step (s : sync) (p : pc) : list (sync * pc) :=
  match p with
  | Idle => [(s, RS_wait_mutex); (s, WS_wait_room); (s, LS_wait_room)]
  | RS_wait_mutex =>
    match sem_wait (s_mutex s) with
    | Some m => [(mk_sync m (s_room_empty s) (s_n_readers s), RS_incr)]
    | None => []
    end
  | RS_incr =>
    [(mk_sync (s_mutex s) (s_room_empty s) (to_int (s_n_readers s + 1)),
      RS_test)]
  | RS_test =>
    [(s, if s_n_readers s =? 1 then RS_wait_room else RS_post_mutex)]
  | RS_wait_room =>
    match sem_wait (s_room_empty s) with
    | Some r => [(mk_sync (s_mutex s) r (s_n_readers s), RS_post_mutex)]
    | None => []
    end
  | RS_post_mutex =>
    [(mk_sync (sem_post (s_mutex s)) (s_room_empty s) (s_n_readers s),
      Reading)]
  | Reading => [(s, RE_wait_mutex)]
  | RE_wait_mutex =>
    match sem_wait (s_mutex s) with
    | Some m => [(mk_sync m (s_room_empty s) (s_n_readers s), RE_decr)]
    | None => []
    end
  | RE_decr =>
    [(mk_sync (s_mutex s) (s_room_empty s) (to_int (s_n_readers s - 1)),
      RE_test)]
  | RE_test =>
    [(s, if s_n_readers s =? 0 then RE_post_room else RE_post_mutex)]
  | RE_post_room =>
    [(mk_sync (s_mutex s) (sem_post (s_room_empty s)) (s_n_readers s),
      RE_post_mutex)]
  | RE_post_mutex =>
    [(mk_sync (sem_post (s_mutex s)) (s_room_empty s) (s_n_readers s), Idle)]
  | WS_wait_room =>
    match sem_wait (s_room_empty s) with
    | Some r => [(mk_sync (s_mutex s) r (s_n_readers s), Writing)]
    | None => []
    end
  | Writing => [(s, WE_post_room)]
  | WE_post_room =>
    [(mk_sync (s_mutex s) (sem_post (s_room_empty s)) (s_n_readers s), Idle)]
  | LS_wait_room =>
    match sem_wait (s_room_empty s) with
    | Some r => [(mk_sync (s_mutex s) r (s_n_readers s), Seeking)]
    | None => []
    end
  | Seeking =>
    (* line 209 on to the post, or the return of line 206 *)
    [(s, LS_post_room); (s, Idle)]
  | LS_post_room =>
    [(mk_sync (s_mutex s) (sem_post (s_room_empty s)) (s_n_readers s), Idle)]
  end.

(** The handle's synchronisation state and the threads using it. *)
Definition pool_state : Type := (sync * list pc)%type.

(** Any thread that can move may be the next to move. *)
Inductive step : pool_state -> pool_state -> Prop :=
| step_thread (s s' : sync) (p p' : pc) (before after : list pc) :
    In (s', p') (thread_step s p) ->
    step (s, before ++ p :: after) (s', before ++ p' :: after).

Inductive steps : pool_state -> pool_state -> Prop :=
| steps_refl (st : pool_state) : steps st st
| steps_cons (st1 st2 st3 : pool_state) :
    step st1 st2 -> steps st2 st3 -> steps st1 st3.

(** [threads] idle threads on a handle as [zc_open] returns it. *)
Definition initial (threads : nat) : pool_state :=
  (mk_sync (sem_init 1) (sem_init 1) 0, repeat Idle threads).

Definition reachable (threads : nat) (st : pool_state) : Prop :=
  steps (initial threads) st.

(** A reader is inside its window from the moment the room is held for it
    until it gives up its count. *)
Definition in_read_window (p : pc) : bool :=
  match p with
  | RS_post_mutex | Reading | RE_wait_mutex | RE_decr => true
  | _ => false
  end.

(** A writer (or a seek) is inside its window from its [sem_wait] on the
    room until its [sem_post]. *)
Definition in_write_window (p : pc) : bool :=
  match p with
  | Writing | WE_post_room | Seeking | LS_post_room => true
  | _ => false
  end.

(** No two distinct threads are inside conflicting windows. *)
Definition exclusion (st : pool_state) : Prop :=
  forall (i j : nat) (p q : pc),
    i <> j ->
    nth_error (snd st) i = Some p ->
    nth_error (snd st) j = Some q ->
    in_write_window q = true ->
    in_read_window p = false /\ in_write_window p = false.

(** Counting the threads of a pool by a weight. *)
Fixpoint total (w : pc -> Z) (l : list pc) : Z :=
  match l with
  | [] => 0
  | p :: l' => w p + total w l'
  end.

Definition holds_mutex (p : pc) : Z :=
  match p with
  | RS_incr | RS_test | RS_wait_room | RS_post_mutex
  | RE_decr | RE_test | RE_post_room | RE_post_mutex => 1
  | _ => 0
  end.

Definition counted (p : pc) : Z :=
  match p with
  | RS_test | RS_wait_room | RS_post_mutex | Reading
  | RE_wait_mutex | RE_decr => 1
  | _ => 0
  end.

Definition at_pc (target p : pc) : Z :=
  match target, p with
  | RS_test, RS_test | RS_wait_room, RS_wait_room
  | RE_test, RE_test | RE_post_room, RE_post_room => 1
  | _, _ => 0
  end.

Definition entering (p : pc) : Z := at_pc RS_test p + at_pc RS_wait_room p.
Definition leaving (p : pc) : Z := at_pc RE_test p + at_pc RE_post_room p.
Definition writers (p : pc) : Z := Z.b2z (in_write_window p).
Definition readers (p : pc) : Z := Z.b2z (in_read_window p).

(** The invariant of the two-semaphore scheme. *)
Record sync_inv (st : pool_state) : Prop := mk_sync_inv {
  inv_mutex : 0 <= s_mutex (fst st) /\
              s_mutex (fst st) + total holds_mutex (snd st) = 1;
  inv_count : s_n_readers (fst st) = total counted (snd st);
  inv_room : 0 <= s_room_empty (fst st) /\
             s_room_empty (fst st) + total writers (snd st) <= 1;
  inv_first : 0 < total (at_pc RS_wait_room) (snd st) ->
              s_n_readers (fst st) = 1;
  inv_last : 0 < total (at_pc RE_post_room) (snd st) ->
             s_n_readers (fst st) = 0;
  inv_entering : 0 < total entering (snd st) -> 2 <= s_n_readers (fst st) ->
                 s_room_empty (fst st) + total writers (snd st) = 0;
  inv_leaving : total entering (snd st) = 0 -> 0 < total leaving (snd st) ->
                s_room_empty (fst st) + total writers (snd st) = 0;
  inv_group : total entering (snd st) = 0 -> total leaving (snd st) = 0 ->
              1 <= s_n_readers (fst st) ->
              s_room_empty (fst st) + total writers (snd st) = 0
}.

(** ** Handles a program can hold

    The handles a single-threaded program reaches from [zc_open] by the
    operations, called with sizes that fit a [long] in worlds that satisfy
    [ok_world]. *)
Inductive in_use (ok_world : grow_world -> Prop) : zc_file -> Prop :=
| use_open (w : open_world) (content : list byte) (file : zc_file) :
    opened w = Some content ->
    Z.of_nat (length content) <= OFF_MAX ->
    zc_open w = Some file ->
    in_use ok_world file
| use_read_start (file file' : zc_file) (sz actual : Z) (v : view) :
    in_use ok_world file ->
    0 <= sz <= LONG_MAX ->
    zc_read_start file sz = Some (v, actual, file') ->
    in_use ok_world file'
| use_read_end (file file' : zc_file) :
    in_use ok_world file ->
    zc_read_end file = Some file' ->
    in_use ok_world file'
| use_write_start (w : grow_world) (file file' : zc_file) (sz : Z) (v : view) :
    in_use ok_world file ->
    ok_world w ->
    0 <= sz <= LONG_MAX ->
    zc_write_start w file sz = Some (v, file') ->
    in_use ok_world file'
| use_poke (file file' : zc_file) (ptr : Z) (data : list byte) :
    in_use ok_world file ->
    poke file ptr data = Some file' ->
    in_use ok_world file'
| use_write_end (msync_ok : bool) (file : zc_file) :
    in_use ok_world file ->
    in_use ok_world (zc_write_end msync_ok file)
| use_lseek (file file' : zc_file) (off whence ret : Z) :
    in_use ok_world file ->
    zc_lseek file off whence = Some (ret, file') ->
    in_use ok_world file'.

(** Any world. *)
Definition any_world (w : grow_world) : Prop := True.

(** A world where [mremap] does not fail once [ftruncate] has succeeded. *)
Definition remap_follows (w : grow_world) : Prop :=
  ftruncate_ok w = true -> mremap_ok w = true.

(** ** Resources of a handle *)

(** What the process holds for one handle: the open descriptor, the
    mapping, the two initialised semaphores, the [malloc] blocks of the
    two [sem_t] and the block of the [struct zc_file] ([malloc] is taken
    to succeed, as the code takes it). *)
Record held : Type := mk_held {
  descriptor_open : bool;
  region_mapped : bool;
  semaphores_live : bool;
  sem_blocks : Z;
  struct_block : bool
}.

Definition nothing_held : held := mk_held false false false 0 false.
Definition descriptor_only : held := mk_held true false false 0 false.
Definition all_held : held := mk_held true true true 2 true.

(** What a call of [zc_open] leaves held when it returns. *)
Definition zc_open_holds (w : open_world) : held :=
  match opened w with
  | None => nothing_held
  | Some content =>
    if negb (fstat_ok w) then descriptor_only
    else
      let stat_size := Z.of_nat (length content) in
      let file_size := if stat_size =? 0 then 1 else stat_size in
      match mmap w content file_size with
      | None => descriptor_only
      | Some _ => all_held
      end
  end.

(** [fsync], [munmap] and [close] as seen by [zc_close].  After a failed
    [close] the state of the descriptor is unspecified:
    [descriptor_survives] tells whether it is still open. *)
Record close_world : Type := mk_close_world {
  fsync_ok : bool;
  munmap_ok : bool;
  close_ok : bool;
  descriptor_survives : bool
}.

(** [munmap] rejects a length that is not positive with [EINVAL]. *)
Definition munmap (w : close_world) (len : Z) : bool :=
  (0 <? len) && munmap_ok w.

(** [zc_close]: the returned [int] and what is still held. *)
Definition zc_close (w : close_world) (file : zc_file) (h : held)
  : Z * held :=
  if negb (fsync_ok w) then (-1, h)
  else if negb (munmap w (size file)) then (-1, h)
  else if negb (close_ok w) then
    (-1, mk_held (descriptor_open h && descriptor_survives w) false
                 (semaphores_live h) (sem_blocks h) (struct_block h))
  else
    (0, mk_held false false false (sem_blocks h) false).

(** ** Copying a file *)

(** Files by path.  Distinct paths name distinct files. *)
Definition filesystem : Type := String.string -> option (list byte).

Definition fs_set (fs : filesystem) (p : String.string) (content : list byte)
  : filesystem :=
  fun q => if String.eqb q p then Some content else fs q.

(** The bytes of the file at [p]; none when there is no such file. *)
Definition contents (fs : filesystem) (p : String.string) : list byte :=
  match fs p with
  | Some content => content
  | None => []
  end.

(** [open (p, O_CREAT | O_RDWR, 0666)] that succeeds: the file exists
    afterwards, empty if it was not there. *)
Definition open_creat (fs : filesystem) (p : String.string) : filesystem :=
  match fs p with
  | Some _ => fs
  | None => fs_set fs p []
  end.

(** [ftruncate] that succeeds: the first [n] bytes, zero-padded. *)
Definition resize (n : nat) (content : list byte) : list byte :=
  firstn n (content ++ repeat x00 n).

(** The system calls as seen by [zc_copyfile].  [copy_reports] is what
    [copy_file_range] returns: [None] for -1, otherwise the number of
    bytes it copied, which may fall short of the request. *)
Record copy_world : Type := mk_copy_world {
  open_source_ok : bool;
  source_fstat_ok : bool;
  open_dest_ok : bool;
  dest_ftruncate_ok : bool;
  copy_reports : option nat;
  dest_close_ok : bool
}.

(** What [zc_copyfile] returns and leaves behind: the [int], the files,
    and the descriptors it opened and never passed to [close]. *)
Record copy_outcome : Type := mk_copy_outcome {
  copy_ret : Z;
  copy_fs : filesystem;
  unclosed : list String.string
}.

Definition zc_copyfile (w : copy_world) (fs : filesystem)
           (source dest : String.string) : copy_outcome :=
  if negb (open_source_ok w) then mk_copy_outcome (-1) fs []
  else
    let fs1 := open_creat fs source in
    if negb (source_fstat_ok w) then mk_copy_outcome (-1) fs1 [source]
    else
      let stat_size := length (contents fs1 source) in
      if negb (open_dest_ok w) then mk_copy_outcome (-1) fs1 [source]
      else
        let fs2 := open_creat fs1 dest in
        if negb (dest_ftruncate_ok w)
        then mk_copy_outcome (-1) fs2 [source; dest]
        else
          let fs3 := fs_set fs2 dest (resize stat_size (contents fs2 dest)) in
          match copy_reports w with
          | None => mk_copy_outcome (-1) fs3 [source; dest]
          | Some reported =>
            let copied := Nat.min reported stat_size in
            let fs4 :=
              fs_set fs3 dest
                     (firstn copied (contents fs3 source)
                        ++ skipn copied (contents fs3 dest)) in
            if negb (dest_close_ok w) then mk_copy_outcome (-1) fs4 [source]
            else mk_copy_outcome 0 fs4 [source]
          end.

(** A world where every call of [zc_copyfile] succeeds and
    [copy_file_range] copies [n] bytes. *)
Definition copying (n : nat) : copy_world :=
  mk_copy_world true true true true (Some n) true.

(** Sample paths. *)
Module SamplePaths.
Import String.
Definition path_a : string := "a"%string.
Definition path_b : string := "b"%string.
Definition path_c : string := "c"%string.
End SamplePaths.
Import SamplePaths.

(** A file system holding [abc] at [path_a] and [hello] at [path_b]. *)
Definition two_files : filesystem :=
  fs_set (fs_set (fun _ => None) path_a abc) path_b hello.

(** ** More about the pool *)

(** No thread is inside a window. *)
Definition no_window_open (st : pool_state) : Prop :=
  forall (i : nat) (p : pc),
    nth_error (snd st) i = Some p ->
    in_read_window p = false /\ in_write_window p = false.

(** Every thread is idle. *)
Definition all_idle (st : pool_state) : Prop :=
  snd st = repeat Idle (length (snd st)).

(** A reader that has got past the room in [zc_read_start] and has not
    left [zc_read_end] yet. *)
Definition past_room (p : pc) : Z :=
  match p with
  | RS_post_mutex | Reading
  | RE_wait_mutex | RE_decr | RE_test | RE_post_room | RE_post_mutex => 1
  | _ => 0
  end.

(** The room is taken and nobody holds it. *)
Record room_lost (st : pool_state) : Prop := mk_room_lost {
  lost_room : s_room_empty (fst st) = 0;
  lost_writers : total writers (snd st) = 0;
  lost_readers : total past_room (snd st) = 0
}.

(** A move other than the return of a rejected seek (line 206). *)
Inductive accepting_step : pool_state -> pool_state -> Prop :=
| accepting_thread (s s' : sync) (p p' : pc) (before after : list pc) :
    In (s', p') (thread_step s p) ->
    (p = Seeking -> p' = LS_post_room) ->
    accepting_step (s, before ++ p :: after) (s', before ++ p' :: after).

Inductive accepting_steps : pool_state -> pool_state -> Prop :=
| accepting_refl (st : pool_state) : accepting_steps st st
| accepting_cons (st1 st2 st3 : pool_state) :
    accepting_step st1 st2 -> accepting_steps st2 st3 ->
    accepting_steps st1 st3.

(** How many moves a thread is from being idle again (its seek, if any,
    being accepted). *)
Definition remaining (p : pc) : Z :=
  match p with
  | Idle => 0
  | RS_wait_mutex => 11
  | RS_incr => 10
  | RS_test => 9
  | RS_wait_room => 8
  | RS_post_mutex => 7
  | Reading => 6
  | RE_wait_mutex => 5
  | RE_decr => 4
  | RE_test => 3
  | RE_post_room => 2
  | RE_post_mutex => 1
  | WS_wait_room => 3
  | Writing => 2
  | WE_post_room => 1
  | LS_wait_room => 3
  | Seeking => 2
  | LS_post_room => 1
  end.

(** The room has not been lost: when neither a writer nor the readers
    hold it, it is free. *)
Record room_kept (st : pool_state) : Prop := mk_room_kept {
  kept_entering : 0 < total entering (snd st) ->
                  s_n_readers (fst st) < 2 ->
                  s_room_empty (fst st) + total writers (snd st) = 1;
  kept_free : total entering (snd st) = 0 ->
              total leaving (snd st) = 0 ->
              s_n_readers (fst st) < 1 ->
              s_room_empty (fst st) + total writers (snd st) = 1
}.

(** * Properties *)

(** ** Machine integers *)

Lemma to_long_id (x : Z) : LONG_MIN <= x <= LONG_MAX -> to_long x = x.
Proof.
  unfold to_long, LONG_MIN, LONG_MAX, two_63, two_64. intros H.
  rewrite Z.mod_small; lia.
Qed.

Lemma to_int_id (x : Z) : - two_31 <= x <= INT_MAX -> to_int x = x.
Proof.
  unfold to_int, INT_MAX, two_31, two_32. intros H.
  rewrite Z.mod_small; lia.
Qed.

Lemma to_off_t_id (x : Z) : LONG_MIN <= x <= OFF_MAX -> to_off_t x = x.
Proof. apply to_long_id. Qed.

Lemma to_off_t_range (x : Z) : LONG_MIN <= to_off_t x <= OFF_MAX.
Proof.
  unfold to_off_t, to_long, LONG_MIN, OFF_MAX, two_63, two_64.
  Z.div_mod_to_equations. lia.
Qed.

Lemma to_size_t_id (x : Z) : 0 <= x <= SIZE_MAX -> to_size_t x = x.
Proof.
  unfold to_size_t, SIZE_MAX, two_64. intros H. apply Z.mod_small. lia.
Qed.

(** A [size_t] above [LONG_MAX] reads as a negative [long]. *)
Lemma to_long_big (x : Z) :
  LONG_MAX < x <= SIZE_MAX -> to_long x = x - two_64.
Proof.
  unfold to_long, LONG_MAX, SIZE_MAX, two_63, two_64. intros H.
  Z.div_mod_to_equations. lia.
Qed.

Ltac unfold_limits :=
  unfold is_size_t, is_long, LONG_MIN, LONG_MAX, OFF_MAX, SIZE_MAX, INT_MAX,
    two_31, two_32, two_63, two_64 in *.

Ltac simpl_file :=
  cbn [set_mapping set_fd set_offset set_mutex set_room_empty set_n_readers
       base_ptr fd size offset mutex room_empty n_readers st_size] in *.

(** ** Semaphores *)

Lemma sem_wait_free (s : sem_t) : 0 < s -> sem_wait s = Some (s - 1).
Proof.
  intros H. unfold sem_wait. destruct (Z.ltb_spec 0 s); [reflexivity | lia].
Qed.

Lemma sem_wait_blocked (s : sem_t) : s <= 0 -> sem_wait s = None.
Proof.
  intros H. unfold sem_wait. destruct (Z.ltb_spec 0 s); [lia | reflexivity].
Qed.

Lemma sem_wait_some (s r : sem_t) : sem_wait s = Some r -> 0 < s /\ r = s - 1.
Proof.
  unfold sem_wait. destruct (Z.ltb_spec 0 s); intros E; [|discriminate].
  injection E as <-. auto.
Qed.

(** ** Bytes of the mapping *)

Lemma firstn_app_exact (A : Type) (l l' : list A) (n : nat) :
  n = length l -> firstn n (l ++ l') = l.
Proof.
  intros ->. rewrite firstn_app, Nat.sub_diag, firstn_all. simpl.
  apply app_nil_r.
Qed.

Lemma skipn_app_exact (A : Type) (l l' : list A) (n : nat) :
  n = length l -> skipn n (l ++ l') = l'.
Proof.
  intros ->. rewrite skipn_app, Nat.sub_diag, skipn_all. reflexivity.
Qed.

(** Remapping a mapping of [old_size] bytes to a longer one and clearing
    the tail, as the growth path does, appends zeros to the old bytes. *)
Lemma grow_bytes (w : grow_world) (old : list byte) (old_size new_size : Z)
      (remapped : list byte) :
  Z.of_nat (length old) = old_size ->
  old_size <= new_size ->
  mremap w old old_size new_size = Some remapped ->
  memset remapped old_size x00 (new_size - old_size)
  = old ++ repeat x00 (Z.to_nat (new_size - old_size)).
Proof.
  intros Hlen Hle Hm. unfold mremap in Hm.
  destruct (mremap_ok w); [|discriminate]. injection Hm as <-.
  assert (Hn : Z.to_nat old_size = length old) by lia.
  unfold memset. rewrite Hn, (firstn_all old).
  set (tail := fresh_pages w ++ repeat x00 (Z.to_nat new_size)).
  assert (Hlong : (Z.to_nat new_size <= length (old ++ tail))%nat).
  { unfold tail. rewrite !length_app, repeat_length. lia. }
  rewrite firstn_firstn, Nat.min_l by lia.
  rewrite firstn_app_exact by reflexivity.
  replace (old_size + (new_size - old_size)) with new_size by lia.
  rewrite skipn_all2 by (rewrite length_firstn; lia).
  rewrite app_nil_r. reflexivity.
Qed.

(** ** zc_open *)

Lemma zc_open_some (w : open_world) (content : list byte) :
  opened w = Some content -> fstat_ok w = true -> mmap_ok w = true ->
  Z.of_nat (length content) <= OFF_MAX ->
  exists file,
    zc_open w = Some file /\ mapped file /\ cursor_ok file /\
    quiescent file /\
    st_size (fd file) = Z.of_nat (length content) /\
    (content <> [] -> base_ptr file = content) /\
    (content = [] -> base_ptr file = [x00]).
Proof.
  intros Ho Hf Hm Hmax. unfold zc_open, mmap. rewrite Ho, Hf, Hm. simpl.
  eexists. split; [reflexivity|].
  destruct content as [|b content].
  - simpl. unfold mapped, cursor_ok, quiescent, sem_init. simpl.
    unfold_limits. repeat split; try lia; try reflexivity. congruence.
  - assert (Hpos : (Z.of_nat (length (b :: content)) =? 0) = false)
      by (apply Z.eqb_neq; simpl length; lia).
    rewrite Hpos.
    assert (Hb : firstn (Z.to_nat (Z.of_nat (length (b :: content))))
                   ((b :: content)
                      ++ repeat x00
                           (Z.to_nat (Z.of_nat (length (b :: content)))))
                 = b :: content)
      by (apply firstn_app_exact; lia).
    rewrite Hb.
    unfold mapped, cursor_ok, quiescent, sem_init. cbn [base_ptr size offset
      mutex room_empty n_readers fd st_size].
    simpl length in *. unfold_limits.
    repeat split; try lia; try reflexivity. discriminate.
Qed.

(** ** zc_write_start *)

(** How a call that returns a view leaves the handle: either untouched but
    for the cursor, or grown by zeros up to the new cursor. *)
Lemma write_start_cases (w : grow_world) (file file' : zc_file) (sz v : Z) :
  mapped file -> cursor_ok file -> is_size_t sz ->
  zc_write_start w file sz = Some (Some v, file') ->
  v = offset file /\
  offset file' = to_off_t (offset file + sz) /\
  room_empty file' = room_empty file - 1 /\ 0 < room_empty file /\
  mutex file' = mutex file /\ n_readers file' = n_readers file /\
  ((to_long sz <= size file - offset file /\
    base_ptr file' = base_ptr file /\ size file' = size file /\
    fd file' = fd file)
   \/
   (size file - offset file < to_long sz /\
    size file < to_off_t (offset file + sz) /\
    size file' = to_off_t (offset file + sz) /\
    fd file' = mk_backing (to_off_t (offset file + sz)) /\
    base_ptr file'
    = base_ptr file
        ++ repeat x00 (Z.to_nat (to_off_t (offset file + sz) - size file)))).
Proof.
  intros [Hlen Hsize] Hcur Hsz. unfold zc_write_start.
  destruct (sem_wait (room_empty file)) as [r|] eqn:Hw; [|discriminate].
  apply sem_wait_some in Hw. destruct Hw as [Hfree ->].
  simpl_file.
  assert (Hrem : to_long (size file - offset file) = size file - offset file).
  { unfold cursor_ok in Hcur. apply to_long_id. unfold_limits. lia. }
  rewrite Hrem.
  destruct (Z.gtb_spec (to_long sz) (size file - offset file)) as [Hgt|Hle].
  - (* growth *)
    set (new_size := to_off_t (offset file + sz)).
    assert (Hnew : 0 <= new_size -> size file < new_size).
    { unfold new_size, to_off_t. unfold cursor_ok in Hcur.
      destruct (Z_le_gt_dec sz LONG_MAX) as [Hs|Hs].
      - rewrite to_long_id in Hgt by (unfold_limits; lia).
        unfold to_long. unfold_limits. Z.div_mod_to_equations. lia.
      - rewrite to_long_big in Hgt by (unfold_limits; lia).
        unfold to_long. unfold_limits. Z.div_mod_to_equations. lia. }
    unfold ftruncate. destruct (Z.ltb_spec new_size 0) as [Hneg|Hpos];
      [discriminate|].
    destruct (ftruncate_ok w); [|discriminate].
    simpl_file.
    destruct (mremap w (base_ptr file) (size file) new_size)
      as [remapped|] eqn:Hm; [|discriminate].
    intros E. injection E as <- <-.
    specialize (Hnew Hpos). simpl_file.
    repeat split; try lia. right.
    repeat split; try lia.
    pose proof (to_off_t_range (offset file + sz)) as Hr. fold new_size in Hr.
    rewrite to_size_t_id by (unfold_limits; lia).
    apply (grow_bytes w); auto. lia.
  - intros E. injection E as <- <-. simpl_file.
    repeat split; try lia. left. repeat split. lia.
Qed.

(** ** zc_read_start *)

(** A reader that can enter gets a result; the result is [NULL] with
    size 0 at or past the mapped length, and the cursor's address
    otherwise. *)
Lemma read_start_returns (file : zc_file) (sz : Z) :
  readable file ->
  exists (v : view) (actual : Z) (file' : zc_file),
    zc_read_start file sz = Some (v, actual, file') /\
    mutex file' = mutex file /\
    n_readers file' = n_readers file + 1 /\
    room_empty file'
    = (if n_readers file =? 0 then room_empty file - 1 else room_empty file) /\
    base_ptr file' = base_ptr file /\ size file' = size file /\
    fd file' = fd file /\
    ((size file <= offset file /\ v = None /\ actual = 0 /\
      offset file' = offset file)
     \/
     (offset file < size file /\ v = Some (offset file) /\
      actual = (if to_long sz >? to_long (size file - offset file)
                then to_size_t (to_long (size file - offset file)) else sz) /\
      offset file' = to_off_t (offset file + actual))).
Proof.
  intros (Hm & Hn & Hroom). unfold zc_read_start.
  rewrite (sem_wait_free _ Hm).
  rewrite (to_int_id (n_readers file + 1)) by (unfold_limits; lia).
  assert (Hr : (if n_readers file + 1 =? 1 then sem_wait (room_empty file)
                else Some (room_empty file))
               = Some (if n_readers file =? 0 then room_empty file - 1
                       else room_empty file)).
  { destruct (Z.eqb_spec (n_readers file) 0) as [E|E].
    - rewrite E. simpl. apply sem_wait_free. auto.
    - destruct (Z.eqb_spec (n_readers file + 1) 1); [lia | reflexivity]. }
  rewrite Hr. simpl_file. unfold sem_post.
  destruct (Z.geb_spec (offset file) (size file)) as [Heof|Hin].
  - do 3 eexists. split; [reflexivity|]. simpl_file.
    repeat split; try lia. left. repeat split; lia.
  - do 3 eexists. split; [reflexivity|]. simpl_file.
    repeat split; try lia. right. repeat split; lia.
Qed.

(** With a requested size that fits a [long], the size handed back is the
    smaller of the request and what is left of the mapping. *)
Lemma read_start_in_range (file : zc_file) (sz : Z) :
  mapped file -> cursor_ok file -> readable file -> 0 <= sz <= LONG_MAX ->
  exists (v : view) (file' : zc_file),
    zc_read_start file sz
    = Some (v, Z.min sz (Z.max 0 (size file - offset file)), file') /\
    (v = None <-> size file <= offset file) /\
    (offset file < size file -> v = Some (offset file)) /\
    offset file' = offset file + Z.min sz (Z.max 0 (size file - offset file)) /\
    base_ptr file' = base_ptr file /\ size file' = size file.
Proof.
  intros [Hlen Hsize] Hcur Hread Hsz.
  destruct (read_start_returns file sz Hread)
    as (v & actual & file' & Hrun & _ & _ & _ & Hb & Hs & _ & Hcase).
  unfold cursor_ok in Hcur.
  assert (Hrem : to_long (size file - offset file) = size file - offset file)
    by (apply to_long_id; unfold_limits; lia).
  rewrite Hrem, (to_long_id sz) in Hcase by (unfold_limits; lia).
  destruct Hcase as [(Heof & -> & -> & Ho) | (Hin & -> & -> & Ho)].
  - exists None, file'. replace (Z.min sz (Z.max 0 (size file - offset file)))
      with 0 by lia.
    repeat split; auto; try lia.
  - exists (Some (offset file)), file'.
    assert (Hact : (if sz >? size file - offset file
                    then to_size_t (size file - offset file) else sz)
                   = Z.min sz (Z.max 0 (size file - offset file))).
    { destruct (Z.gtb_spec sz (size file - offset file)).
      - rewrite to_size_t_id by (unfold_limits; lia). lia.
      - lia. }
    rewrite Hact in *. rewrite to_off_t_id in Ho by (unfold_limits; lia).
    repeat split; auto; try lia; try discriminate.
Qed.

(** ** zc_lseek *)

(** The position as the code holds it in an [off_t]. *)
Lemma lseek_new_offset (file : zc_file) (off whence : Z) :
  (if whence =? SEEK_SET then to_off_t off
   else if whence =? SEEK_CUR then to_off_t (offset file + off)
   else if whence =? SEEK_END then to_off_t (size file + off)
   else -1)
  = match seek_target file off whence with
    | Some pos => to_off_t pos
    | None => -1
    end.
Proof.
  unfold seek_target.
  destruct (whence =? SEEK_SET); [reflexivity|].
  destruct (whence =? SEEK_CUR); [reflexivity|].
  destruct (whence =? SEEK_END); reflexivity.
Qed.

(** A seek that gets the room returns: -1 with the cursor kept and the
    room still taken, or the new cursor with the room given back. *)
Lemma lseek_returns (file : zc_file) (off whence : Z) :
  0 < room_empty file ->
  exists (ret : Z) (file' : zc_file),
    zc_lseek file off whence = Some (ret, file') /\
    base_ptr file' = base_ptr file /\ size file' = size file /\
    fd file' = fd file /\ mutex file' = mutex file /\
    n_readers file' = n_readers file /\
    ((ret = -1 /\ offset file' = offset file /\
      room_empty file' = room_empty file - 1 /\
      match seek_target file off whence with
      | Some pos => to_off_t pos < 0
      | None => True
      end)
     \/
     (0 <= ret /\ offset file' = ret /\
      room_empty file' = room_empty file /\
      exists pos, seek_target file off whence = Some pos /\
                  to_off_t pos = ret)).
Proof.
  intros Hfree. unfold zc_lseek. rewrite (sem_wait_free _ Hfree). simpl_file.
  rewrite lseek_new_offset.
  destruct (seek_target file off whence) as [pos|] eqn:Ht.
  - destruct (Z.ltb_spec (to_off_t pos) 0) as [Hneg|Hpos].
    + do 2 eexists. split; [reflexivity|]. simpl_file.
      do 5 (split; [reflexivity|]). left. repeat split; auto.
    + do 2 eexists. split; [reflexivity|]. simpl_file. unfold sem_post.
      do 5 (split; [reflexivity|]). right.
      split; [exact Hpos|]. split; [reflexivity|]. split; [lia|].
      exists pos. auto.
  - simpl. do 2 eexists. split; [reflexivity|]. simpl_file.
    do 5 (split; [reflexivity|]). left. repeat split; auto.
Qed.

(** ** Windows *)

Lemma poke_some (file file' : zc_file) (ptr : Z) (data : list byte) :
  poke file ptr data = Some file' ->
  0 <= ptr /\
  ptr + Z.of_nat (length data) <= Z.of_nat (length (base_ptr file)) /\
  length (base_ptr file') = length (base_ptr file) /\
  size file' = size file /\ offset file' = offset file /\
  fd file' = fd file /\ mutex file' = mutex file /\
  room_empty file' = room_empty file /\ n_readers file' = n_readers file /\
  firstn (length data) (skipn (Z.to_nat ptr) (base_ptr file')) = data.
Proof.
  unfold poke.
  destruct (Z.leb_spec 0 ptr) as [Hp|]; [|discriminate].
  destruct (Z.leb_spec (ptr + Z.of_nat (length data))
                       (Z.of_nat (length (base_ptr file)))) as [Hq|];
    [|discriminate].
  simpl. intros E. injection E as <-. simpl_file.
  assert (Hf : length (firstn (Z.to_nat ptr) (base_ptr file)) = Z.to_nat ptr)
    by (rewrite length_firstn; lia).
  repeat split; auto.
  - rewrite !length_app, Hf, length_skipn. lia.
  - rewrite skipn_app_exact by (symmetry; exact Hf).
    apply firstn_app_exact. reflexivity.
Qed.

Lemma poke_in_bounds (file : zc_file) (ptr : Z) (data : list byte) :
  0 <= ptr ->
  ptr + Z.of_nat (length data) <= Z.of_nat (length (base_ptr file)) ->
  exists file', poke file ptr data = Some file'.
Proof.
  intros Hp Hq. unfold poke.
  destruct (Z.leb_spec 0 ptr); [|lia].
  destruct (Z.leb_spec (ptr + Z.of_nat (length data))
                       (Z.of_nat (length (base_ptr file)))); [|lia].
  simpl. eexists. reflexivity.
Qed.

Lemma open_empty_file : zc_open (world_with []) = Some empty_file.
Proof. reflexivity. Qed.

Lemma open_abc_file : zc_open (world_with abc) = Some abc_file.
Proof. reflexivity. Qed.

Lemma empty_file_wf : mapped empty_file /\ cursor_ok empty_file /\
                      quiescent empty_file.
Proof.
  unfold mapped, cursor_ok, quiescent. simpl. unfold_limits.
  repeat split; lia.
Qed.

Lemma abc_file_wf : mapped abc_file /\ cursor_ok abc_file /\
                    quiescent abc_file.
Proof.
  unfold mapped, cursor_ok, quiescent. simpl. unfold_limits.
  repeat split; lia.
Qed.

Lemma quiescent_readable (file : zc_file) : quiescent file -> readable file.
Proof.
  intros (Hm & Hr & Hn). unfold readable. rewrite Hm, Hr, Hn.
  unfold_limits. repeat split; lia.
Qed.

(** ** Round trip *)

(** C1. Round-trip identity: when [zc_write_start] of [length B] bytes
    returns a view, the caller fills it with [B] and [zc_write_end]
    completes, then seeking back to the offset of the write and calling
    [zc_read_start] for [length B] bytes hands back size [length B] and a
    view showing exactly [B]. *)
Theorem write_then_read_round_trip :
  forall (w : grow_world) (msync_ok : bool) (file f1 f2 : zc_file)
         (B : list byte) (v : Z),
    mapped file -> cursor_ok file -> quiescent file ->
    is_size_t (Z.of_nat (length B)) ->
    zc_write_start w file (Z.of_nat (length B)) = Some (Some v, f1) ->
    poke f1 v B = Some f2 ->
    exists (f3 f4 : zc_file) (rv : view),
      v = offset file /\
      zc_lseek (zc_write_end msync_ok f2) v SEEK_SET = Some (v, f3) /\
      zc_read_start f3 (Z.of_nat (length B))
      = Some (rv, Z.of_nat (length B), f4) /\
      window f4 rv (Z.of_nat (length B)) = B.
Proof.
  intros w msync_ok file f1 f2 B v Hmap Hcur (Hm & Hr & Hn) Hsz Hws Hpoke.
  destruct (write_start_cases _ _ _ _ _ Hmap Hcur Hsz Hws)
    as (Hv & _ & Hroom1 & _ & Hm1 & Hn1 & Hgrow).
  destruct Hmap as [Hlen Hsize]. unfold cursor_ok in Hcur.
  assert (Hmap1 : Z.of_nat (length (base_ptr f1)) = size f1 /\
                  1 <= size f1 <= OFF_MAX).
  { destruct Hgrow as [(_ & Hb & Hs & _) | (_ & Hlt & Hs & _ & Hb)].
    - rewrite Hb, Hs. auto.
    - pose proof (to_off_t_range (offset file + Z.of_nat (length B))).
      rewrite Hb, Hs, length_app, repeat_length. lia. }
  destruct Hmap1 as [Hlen1 Hsize1].
  destruct (poke_some _ _ _ _ Hpoke)
    as (Hv0 & Hfit & Hlen2 & Hs2 & Ho2 & _ & Hm2 & Hr2 & Hn2 & Hdata).
  set (f2' := zc_write_end msync_ok f2).
  assert (Hfree : 0 < room_empty f2').
  { unfold f2', zc_write_end, sem_post. simpl_file. lia. }
  destruct (lseek_returns f2' v SEEK_SET Hfree)
    as (ret & f3 & Hseek & Hb3 & Hs3 & _ & Hm3 & Hn3 & Hcase).
  assert (Hvid : to_off_t v = v) by (apply to_off_t_id; unfold_limits; lia).
  assert (Hret : ret = v /\ offset f3 = v /\ room_empty f3 = room_empty f2').
  { unfold seek_target in Hcase. simpl in Hcase. rewrite Hvid in Hcase.
    destruct Hcase as [(_ & _ & _ & Hneg) | (_ & Ho & Hr3 & pos & Hp & Hq)].
    - lia.
    - injection Hp as <-. rewrite Hvid in Hq. subst ret. auto. }
  destruct Hret as (-> & Ho3 & Hr3).
  assert (Hbase3 : base_ptr f3 = base_ptr f2) by (rewrite Hb3; reflexivity).
  assert (Hsize3 : size f3 = size f1) by (rewrite Hs3; exact Hs2).
  assert (Hmap3 : mapped f3).
  { unfold mapped. rewrite Hbase3, Hsize3, Hlen2. auto. }
  assert (Hcur3 : cursor_ok f3).
  { unfold cursor_ok. rewrite Ho3. unfold_limits. lia. }
  assert (Hread3 : readable f3).
  { unfold readable. rewrite Hm3, Hn3, Hr3.
    unfold f2', zc_write_end, sem_post. simpl_file.
    rewrite Hm2, Hn2, Hr2, Hm1, Hn1, Hroom1, Hm, Hr, Hn.
    unfold_limits. repeat split; lia. }
  assert (Hsz3 : 0 <= Z.of_nat (length B) <= LONG_MAX)
    by (unfold_limits; lia).
  destruct (read_start_in_range _ _ Hmap3 Hcur3 Hread3 Hsz3)
    as (rv & f4 & Hrun & Hnull & Hview & _ & Hb4 & _).
  rewrite Ho3, Hsize3 in *.
  replace (Z.min (Z.of_nat (length B)) (Z.max 0 (size f1 - v)))
    with (Z.of_nat (length B)) in Hrun by lia.
  exists f3, f4, rv. repeat split; auto.
  destruct (Z_lt_le_dec v (size f1)) as [Hin|Heof].
  - rewrite (Hview Hin). unfold window.
    rewrite Hb4, Hbase3, Nat2Z.id. exact Hdata.
  - destruct Hnull as [_ Hnull]. rewrite (Hnull Heof). simpl.
    destruct B; [reflexivity | simpl length in *; lia].
Qed.

Lemma write_then_read_round_trip_witness :
  exists (f3 f4 : zc_file) (rv : view),
    0 = offset empty_file /\
    zc_lseek
      (zc_write_end true
         (after_poke (after_write_start growing empty_file 5) 0 hello))
      0 SEEK_SET = Some (0, f3) /\
    zc_read_start f3 5 = Some (rv, 5, f4) /\
    window f4 rv 5 = hello.
Proof.
  apply (write_then_read_round_trip growing true empty_file
           (after_write_start growing empty_file 5)
           (after_poke (after_write_start growing empty_file 5) 0 hello)
           hello 0).
  - unfold mapped. simpl. unfold_limits. lia.
  - unfold cursor_ok. simpl. unfold_limits. lia.
  - unfold quiescent. simpl. lia.
  - simpl. unfold_limits. lia.
  - vm_compute. reflexivity.
  - vm_compute. reflexivity.
Defined.

(** ** Growth *)

(** In a world where growth succeeds, a write past the mapped length that
    fits a file offset returns the cursor's address on a mapping grown by
    zeros to the new cursor. *)
Lemma write_start_grows (w : grow_world) (file : zc_file) (sz : Z) :
  mapped file -> cursor_ok file -> 0 < room_empty file ->
  ftruncate_ok w = true -> mremap_ok w = true ->
  0 <= sz -> size file < offset file + sz <= OFF_MAX ->
  zc_write_start w file sz
  = Some (Some (offset file),
          mk_zc_file
            (base_ptr file
               ++ repeat x00 (Z.to_nat (offset file + sz - size file)))
            (mk_backing (offset file + sz)) (offset file + sz)
            (offset file + sz) (mutex file) (room_empty file - 1)
            (n_readers file)).
Proof.
  intros [Hlen Hsize] Hcur Hfree Hft Hmr Hsz Hnew. unfold cursor_ok in Hcur.
  unfold zc_write_start. rewrite (sem_wait_free _ Hfree). simpl_file.
  rewrite (to_long_id (size file - offset file)) by (unfold_limits; lia).
  rewrite (to_long_id sz) by (unfold_limits; lia).
  destruct (Z.gtb_spec sz (size file - offset file)) as [_|]; [|lia].
  rewrite (to_off_t_id (offset file + sz)) by (unfold_limits; lia).
  unfold ftruncate. rewrite Hft.
  destruct (Z.ltb_spec (offset file + sz) 0) as [|_]; [lia|]. simpl_file.
  destruct (mremap w (base_ptr file) (size file) (offset file + sz))
    as [remapped|] eqn:Hm;
    [|unfold mremap in Hm; rewrite Hmr in Hm; discriminate].
  simpl_file.
  rewrite to_size_t_id by (unfold_limits; lia).
  rewrite (grow_bytes w (base_ptr file) (size file) (offset file + sz)
             remapped) by (auto; lia).
  unfold set_offset, set_mapping, set_fd, set_room_empty. simpl.
  reflexivity.
Qed.

(** No growth happens unless the new cursor, as the [off_t] the code
    computes, lies past the mapped length. *)
Lemma no_growth_bound (file : zc_file) (sz : Z) :
  mapped file -> cursor_ok file -> is_size_t sz ->
  to_long sz <= size file - offset file ->
  to_off_t (offset file + sz) <= size file.
Proof.
  intros [_ Hsize] Hcur Hsz Hle. unfold cursor_ok in Hcur.
  destruct (Z_le_gt_dec sz LONG_MAX) as [Hs|Hs].
  - rewrite to_long_id in Hle by (unfold_limits; lia).
    rewrite to_off_t_id by (unfold_limits; lia). lia.
  - rewrite to_long_big in Hle by (unfold_limits; lia).
    unfold to_off_t, to_long. unfold_limits. Z.div_mod_to_equations. lia.
Qed.

(** X28. Growth in terms of the [off_t] sum of line 147, which is the
    integer sum cursor + size whenever that is a file offset: when that
    sum lies past the mapped length and [zc_write_start] returns a view,
    the backing store and the mapping have exactly that length, the bytes
    below the old mapped length are kept, the bytes from the old mapped
    length on are zero, and [size] is the new length.  In a world where
    [ftruncate] and [mremap] succeed the call does return that view
    whenever cursor + size is a file offset past the mapped length.  On a
    new file, writing "abc" at 0, seeking to 10 and writing "xyz" leaves
    "abc", seven zero bytes, "xyz". *)
Theorem write_start_growth_zero_fills :
  (forall (w : grow_world) (file file' : zc_file) (sz v : Z),
     mapped file -> cursor_ok file -> is_size_t sz ->
     size file < to_off_t (offset file + sz) ->
     zc_write_start w file sz = Some (Some v, file') ->
     (offset file + sz <= OFF_MAX ->
      to_off_t (offset file + sz) = offset file + sz) /\
     st_size (fd file') = to_off_t (offset file + sz) /\
     size file' = to_off_t (offset file + sz) /\
     Z.of_nat (length (base_ptr file')) = to_off_t (offset file + sz) /\
     bytes_between file' 0 (size file) = base_ptr file /\
     bytes_between file' (size file) (to_off_t (offset file + sz))
     = repeat x00 (Z.to_nat (to_off_t (offset file + sz) - size file)))
  /\
  (forall (w : grow_world) (file : zc_file) (sz : Z),
     mapped file -> cursor_ok file -> 0 < room_empty file ->
     ftruncate_ok w = true -> mremap_ok w = true ->
     0 <= sz -> size file < offset file + sz <= OFF_MAX ->
     exists file' : zc_file,
       zc_write_start w file sz = Some (Some (offset file), file') /\
       st_size (fd file') = offset file + sz /\
       size file' = offset file + sz /\
       base_ptr file'
       = base_ptr file
           ++ repeat x00 (Z.to_nat (offset file + sz - size file)) /\
       offset file' = offset file + sz)
  /\
  (forall (w1 w2 : grow_world) (msync_ok : bool),
     ftruncate_ok w1 = true -> mremap_ok w1 = true ->
     ftruncate_ok w2 = true -> mremap_ok w2 = true ->
     exists f1 f2 f3 f4 f5 : zc_file,
       zc_write_start w1 empty_file 3 = Some (Some 0, f1) /\
       poke f1 0 abc = Some f2 /\
       zc_lseek (zc_write_end msync_ok f2) 10 SEEK_SET = Some (10, f3) /\
       zc_write_start w2 f3 3 = Some (Some 10, f4) /\
       poke f4 10 xyz = Some f5 /\
       base_ptr f5 = abc ++ repeat x00 7 ++ xyz /\
       st_size (fd f5) = 13 /\ size f5 = 13).
Proof.
  split.
  - intros w file file' sz v Hmap Hcur Hsz Hpast Hws.
    destruct (write_start_cases _ _ _ _ _ Hmap Hcur Hsz Hws)
      as (_ & _ & _ & _ & _ & _ & Hgrow).
    destruct Hgrow as [(Hle & _) | (_ & Hlt & Hs & Hfd & Hb)].
    { pose proof (no_growth_bound file sz Hmap Hcur Hsz Hle). lia. }
    destruct Hmap as [Hlen Hsize]. unfold cursor_ok in Hcur.
    set (new_length := to_off_t (offset file + sz)) in *.
    assert (Hn : Z.to_nat (size file) = length (base_ptr file)) by lia.
    split.
    { intros Hfit. unfold new_length. apply to_off_t_id.
      unfold is_size_t in Hsz. unfold_limits. lia. }
    split; [rewrite Hfd; reflexivity|]. split; [exact Hs|].
    split; [rewrite Hb, length_app, repeat_length; lia|].
    unfold bytes_between. rewrite Hb. split.
    + rewrite Z.sub_0_r. simpl skipn. apply firstn_app_exact. exact Hn.
    + rewrite skipn_app_exact by exact Hn.
      apply firstn_all2. rewrite repeat_length. lia.
  - split.
    { intros w file sz Hmap Hcur Hfree Hft Hmr Hsz Hnew.
      eexists. split.
      - apply write_start_grows; assumption.
      - simpl_file. repeat split. }
    intros w1 w2 msync_ok Hf1 Hm1 Hf2 Hm2.
    destruct empty_file_wf as (Hmap & Hcur & _).
    pose proof (write_start_grows w1 empty_file 3 Hmap Hcur) as H1.
    rewrite H1 by (try assumption; simpl; unfold_limits; lia).
    exists (mk_zc_file [x00; x00; x00] (mk_backing 3) 3 3 1 0 0).
    exists (mk_zc_file abc (mk_backing 3) 3 3 1 0 0).
    exists (mk_zc_file abc (mk_backing 3) 3 10 1 1 0).
    exists (mk_zc_file (abc ++ repeat x00 10) (mk_backing 13) 13 13 1 0 0).
    eexists.
    split; [reflexivity|]. split; [reflexivity|]. split; [reflexivity|].
    split.
    + rewrite write_start_grows; try assumption.
      * reflexivity.
      * unfold mapped. simpl. unfold_limits. lia.
      * unfold cursor_ok. simpl. unfold_limits. lia.
      * simpl. lia.
      * lia.
      * simpl. unfold_limits. lia.
    + split; [reflexivity|]. repeat split.
Qed.

Lemma write_start_growth_zero_fills_witness :
  (size (after_lseek abc_file 10 SEEK_SET)
   < to_off_t (offset (after_lseek abc_file 10 SEEK_SET) + 3)) /\
  (size (after_write_start growing (after_lseek abc_file 10 SEEK_SET) 3)
   = to_off_t (offset (after_lseek abc_file 10 SEEK_SET) + 3)) /\
  (bytes_between
     (after_write_start growing (after_lseek abc_file 10 SEEK_SET) 3)
     (size (after_lseek abc_file 10 SEEK_SET))
     (to_off_t (offset (after_lseek abc_file 10 SEEK_SET) + 3))
   = repeat x00 10).
Proof.
  assert (Hpast : size (after_lseek abc_file 10 SEEK_SET)
                  < to_off_t (offset (after_lseek abc_file 10 SEEK_SET) + 3))
    by (vm_compute; reflexivity).
  split; [exact Hpast|].
  destruct (proj1 write_start_growth_zero_fills growing
              (after_lseek abc_file 10 SEEK_SET)
              (after_write_start growing (after_lseek abc_file 10 SEEK_SET) 3)
              3 10) as (_ & _ & Hs & _ & _ & Hz).
  - unfold mapped. simpl. unfold_limits. lia.
  - unfold cursor_ok. vm_compute. split; intros H; discriminate H.
  - unfold_limits. lia.
  - exact Hpast.
  - vm_compute. reflexivity.
  - split; [exact Hs | exact Hz].
Defined.

(** C2. Dynamic growth breaks for a size above [LONG_MAX].  On the
    three-byte file with the cursor moved to 10, [zc_write_start] asked
    for 2^64 - 2 bytes, in a world where [ftruncate] and [mremap] succeed,
    grows the backing store and the mapping to 8 bytes, not to cursor +
    size, sets [size] to 8 and returns the address of byte 10, which lies
    past the grown mapping.  With the cursor at 0 and [SIZE_MAX] bytes
    asked for, cursor + size is past the mapped length as well, yet the
    call returns a view and grows nothing. *)
Theorem write_start_growth_wraps :
  exists (file file' same : zc_file),
    zc_lseek abc_file 10 SEEK_SET = Some (10, file) /\
    is_size_t (SIZE_MAX - 1) /\
    size file = 3 /\ offset file = 10 /\
    size file < offset file + (SIZE_MAX - 1) /\
    zc_write_start growing file (SIZE_MAX - 1) = Some (Some 10, file') /\
    st_size (fd file') = 8 /\ size file' = 8 /\
    base_ptr file' = abc ++ repeat x00 5 /\
    size file' <> offset file + (SIZE_MAX - 1) /\
    Z.of_nat (length (base_ptr file')) <= 10 /\
    offset file' = 8 /\
    size abc_file < offset abc_file + SIZE_MAX /\
    zc_write_start growing abc_file SIZE_MAX = Some (Some 0, same) /\
    st_size (fd same) = 3 /\ size same = 3 /\ base_ptr same = abc.
Proof.
  do 3 eexists.
  split; [vm_compute; reflexivity|].
  split; [unfold is_size_t; unfold_limits; lia|].
  split; [reflexivity|]. split; [reflexivity|].
  split; [vm_compute; reflexivity|].
  split; [vm_compute; reflexivity|].
  split; [reflexivity|]. split; [reflexivity|]. split; [reflexivity|].
  split; [vm_compute; discriminate|].
  split; [vm_compute; discriminate|].
  split; [reflexivity|].
  split; [vm_compute; reflexivity|].
  split; [vm_compute; reflexivity|].
  repeat split.
Qed.

(** ** Seek *)

(** C5. Seek behaviour: a [zc_lseek] that gets the room returns; it
    returns -1 exactly when the mode is not recognised or the position it
    computes (offset from the start, from the cursor or from the mapped
    length, held in an [off_t]) is negative; on -1 the cursor is
    unchanged; otherwise the cursor is that position, which is returned.
    A position past the mapped length is accepted like any other and
    nothing grows. *)
Theorem lseek_fails_iff_negative_or_bad_mode :
  forall (file : zc_file) (off whence : Z),
    0 < room_empty file ->
    exists (ret : Z) (file' : zc_file),
      zc_lseek file off whence = Some (ret, file') /\
      (ret = -1 <->
       match seek_target file off whence with
       | Some pos => to_off_t pos < 0
       | None => True
       end) /\
      (ret = -1 -> offset file' = offset file) /\
      (ret <> -1 ->
       exists pos, seek_target file off whence = Some pos /\
                   ret = to_off_t pos /\ offset file' = ret) /\
      (forall pos, seek_target file off whence = Some pos ->
                   is_long pos ->
                   (ret = -1 <-> pos < 0) /\
                   (0 <= pos -> ret = pos /\ offset file' = pos)) /\
      size file' = size file /\ base_ptr file' = base_ptr file /\
      fd file' = fd file.
Proof.
  intros file off whence Hfree.
  destruct (lseek_returns file off whence Hfree)
    as (ret & file' & Hrun & Hb & Hs & Hfd & _ & _ & Hcase).
  exists ret, file'. split; [exact Hrun|].
  destruct Hcase as [(-> & Ho & _ & Hneg) | (Hpos & Ho & _ & pos & Ht & Hp)].
  - split; [tauto|]. split; [auto|]. split; [congruence|].
    split; [|auto].
    intros pos Ht Hr. rewrite Ht in Hneg.
    rewrite to_off_t_id in Hneg by exact Hr. split; [tauto | lia].
  - rewrite Ht. split.
    { split; intros H; lia. }
    split; [lia|]. split.
    { intros _. exists pos. auto. }
    split; [|auto].
    intros pos' Ht' Hr. injection Ht' as <-.
    rewrite to_off_t_id in Hp by exact Hr. split; [lia|]. intros _. lia.
Qed.

Lemma lseek_fails_iff_negative_or_bad_mode_witness :
  0 < room_empty abc_file /\
  exists (file' : zc_file),
    zc_lseek abc_file 10 SEEK_SET = Some (10, file') /\ offset file' = 10.
Proof.
  split; [simpl; lia|].
  destruct (lseek_fails_iff_negative_or_bad_mode abc_file 10 SEEK_SET)
    as (ret & file' & Hrun & _ & _ & _ & Hpos & _).
  - simpl. lia.
  - destruct (Hpos 10) as [_ Hok].
    + reflexivity.
    + unfold_limits. lia.
    + destruct Hok as [Hret Ho]; [lia|]. subst ret.
      exists file'. split; [exact Hrun | exact Ho].
Defined.

(** ** Read windows *)

(** X29. While the cursor is not negative, [zc_read_start] returns
    [NULL] exactly when the cursor is at or past the mapped length, and
    then leaves the cursor where it was; with the cursor below the mapped
    length it returns the address of the cursor's byte, which lies in the
    mapping, whatever size is requested (0 included). *)
Theorem read_start_null_iff_eof :
  forall (file : zc_file) (sz : Z),
    mapped file -> cursor_ok file -> readable file ->
    exists (v : view) (actual : Z) (file' : zc_file),
      zc_read_start file sz = Some (v, actual, file') /\
      (v = None <-> size file <= offset file) /\
      (v = None -> offset file' = offset file /\ actual = 0) /\
      (offset file < size file ->
       v = Some (offset file) /\
       0 <= offset file < Z.of_nat (length (base_ptr file'))).
Proof.
  intros file sz [Hlen Hsize] Hcur Hread. unfold cursor_ok in Hcur.
  destruct (read_start_returns file sz Hread)
    as (v & actual & file' & Hrun & _ & _ & _ & Hb & _ & _ & Hcase).
  exists v, actual, file'. split; [exact Hrun|].
  destruct Hcase as [(Heof & -> & -> & Ho) | (Hin & -> & _ & _)].
  - split; [tauto|]. split; [auto|]. lia.
  - split; [split; [discriminate | lia]|]. split; [discriminate|].
    intros _. rewrite Hb. split; [reflexivity | lia].
Qed.

Lemma read_start_null_iff_eof_witness :
  (mapped abc_file /\ cursor_ok abc_file /\ readable abc_file) /\
  exists (actual : Z) (file' : zc_file),
    zc_read_start abc_file 0 = Some (Some 0, actual, file').
Proof.
  assert (Hm : mapped abc_file)
    by (unfold mapped; simpl; unfold_limits; lia).
  assert (Hc : cursor_ok abc_file)
    by (unfold cursor_ok; simpl; unfold_limits; lia).
  assert (Hr : readable abc_file)
    by (unfold readable; simpl; unfold_limits; lia).
  split; [auto|].
  destruct (read_start_null_iff_eof abc_file 0 Hm Hc Hr)
    as (v & actual & file' & Hrun & _ & _ & Hin).
  destruct Hin as [Hv _]; [simpl; lia|].
  exists actual, file'. rewrite Hrun, Hv. reflexivity.
Defined.

(** C10. A cursor below the mapped length does not always give a view
    into the mapping.  On the three-byte file, a [zc_read_start] asked
    for [SIZE_MAX] bytes followed by [zc_read_end] leaves a handle with
    all three bytes mapped, no window open and the cursor at -1, below
    the mapped length; the next [zc_read_start], asked for one byte,
    passes the test of line 109 and returns the address one byte before
    the mapping. *)
Theorem read_start_before_mapping :
  exists (f1 f2 f3 : zc_file) (ptr : Z),
    zc_read_start abc_file SIZE_MAX = Some (Some 0, SIZE_MAX, f1) /\
    zc_read_end f1 = Some f2 /\
    base_ptr f2 = abc /\ size f2 = 3 /\ mapped f2 /\
    quiescent f2 /\ readable f2 /\
    offset f2 = -1 /\ offset f2 < size f2 /\
    zc_read_start f2 1 = Some (Some ptr, 1, f3) /\
    base_ptr f3 = abc /\
    ptr = -1 /\
    ~ (0 <= ptr < Z.of_nat (length (base_ptr f3))).
Proof.
  do 4 eexists.
  split; [vm_compute; reflexivity|].
  split; [vm_compute; reflexivity|].
  split; [reflexivity|]. split; [reflexivity|].
  split; [unfold mapped; simpl; unfold_limits; lia|].
  split; [unfold quiescent; simpl; lia|].
  split; [unfold readable; simpl; unfold_limits; lia|].
  split; [reflexivity|]. split; [simpl; lia|].
  split; [vm_compute; reflexivity|].
  split; [reflexivity|].
  split; [reflexivity|]. lia.
Qed.

(** C3. Read-window semantics break for a request above [LONG_MAX]: on
    the three-byte file with the cursor at 0, [zc_read_start] asked for
    [SIZE_MAX] bytes hands back the size [SIZE_MAX], not
    min ([SIZE_MAX], 3 - 0) = 3, and moves the cursor to -1. *)
Theorem read_start_size_max_not_clamped :
  exists (file' : zc_file),
    zc_read_start abc_file SIZE_MAX = Some (Some 0, SIZE_MAX, file') /\
    offset file' = -1 /\
    Z.min SIZE_MAX (size abc_file - offset abc_file) = 3.
Proof.
  eexists. split; [vm_compute; reflexivity|]. split; reflexivity.
Qed.

(** C9. A window can leave the mapping: on the three-byte file with the
    cursor at 0 and size [SIZE_MAX] requested, [zc_read_start] and
    [zc_write_start] both return the non-null view at 0 over a mapping
    that still has three bytes, so the span from 0 to [SIZE_MAX] is not
    inside it. *)
Theorem window_size_max_outside_mapping :
  (exists (actual : Z) (file' : zc_file),
     zc_read_start abc_file SIZE_MAX = Some (Some 0, actual, file') /\
     size file' = 3 /\ length (base_ptr file') = 3%nat /\
     size file' < 0 + actual)
  /\
  (exists (file' : zc_file),
     zc_write_start growing abc_file SIZE_MAX = Some (Some 0, file') /\
     size file' = 3 /\ length (base_ptr file') = 3%nat /\
     size file' < 0 + SIZE_MAX).
Proof.
  split.
  - do 2 eexists. split; [vm_compute; reflexivity|]. repeat split.
  - eexists. split; [vm_compute; reflexivity|]. repeat split.
Qed.

(** With sizes that fit a [long], every view handed out spans bytes of
    the mapping and leaves the cursor at the end of the span. *)
Lemma windows_in_range_inside_mapping :
  forall (w : grow_world) (file : zc_file) (sz : Z),
    mapped file -> cursor_ok file -> 0 <= sz <= LONG_MAX ->
    (forall v actual file',
       readable file ->
       zc_read_start file sz = Some (Some v, actual, file') ->
       v = offset file /\ 0 <= v /\ v + actual <= size file' /\
       Z.of_nat (length (base_ptr file')) = size file' /\
       offset file' = v + actual) /\
    (forall v file',
       zc_write_start w file sz = Some (Some v, file') ->
       v = offset file /\ 0 <= v /\ v + sz <= size file' /\
       Z.of_nat (length (base_ptr file')) = size file' /\
       offset file' = v + sz).
Proof.
  intros w file sz Hmap Hcur Hsz. split.
  - intros v actual file' Hread Hrun.
    destruct (read_start_in_range file sz Hmap Hcur Hread Hsz)
      as (v0 & f0 & Hrun0 & _ & _ & Ho & Hb & Hs).
    rewrite Hrun in Hrun0. injection Hrun0 as <- -> <-.
    destruct Hmap as [Hlen Hsize]. unfold cursor_ok in Hcur.
    destruct (read_start_returns file sz Hread)
      as (v1 & a1 & f1 & Hrun1 & _ & _ & _ & _ & _ & _ & Hcase).
    rewrite Hrun in Hrun1. injection Hrun1 as <- _ _.
    destruct Hcase as [(_ & Hnull & _) | (Hin & Hv & _)];
      [discriminate|].
    injection Hv as ->. rewrite Hb, Hs. repeat split; lia.
  - intros v file' Hrun.
    assert (Hsize_t : is_size_t sz) by (unfold_limits; lia).
    destruct (write_start_cases _ _ _ _ _ Hmap Hcur Hsize_t Hrun)
      as (-> & Ho & _ & _ & _ & _ & Hgrow).
    destruct Hmap as [Hlen Hsize]. unfold cursor_ok in Hcur.
    rewrite (to_long_id sz) in Hgrow by (unfold_limits; lia).
    pose proof (to_off_t_range (offset file + sz)) as Hr.
    destruct Hgrow as [(Hle & Hb & Hs & _) | (_ & Hlt & Hs & _ & Hb)].
    + rewrite to_off_t_id in Ho by (unfold_limits; lia).
      rewrite Hb, Hs. repeat split; lia.
    + assert (Hid : to_off_t (offset file + sz) = offset file + sz).
      { unfold to_off_t, to_long in *. unfold_limits.
        Z.div_mod_to_equations. lia. }
      rewrite Hid in *.
      rewrite Hb, Hs, length_app, repeat_length. repeat split; lia.
Qed.

(** A request above [LONG_MAX] reads as a negative [long]: it is never
    clamped and moves the cursor backwards. *)
Lemma read_start_above_long_max (file : zc_file) (sz : Z) :
  mapped file -> cursor_ok file -> readable file ->
  LONG_MAX < sz <= SIZE_MAX -> offset file < size file ->
  exists (file' : zc_file),
    zc_read_start file sz = Some (Some (offset file), sz, file') /\
    offset file' = offset file + sz - two_64.
Proof.
  intros [Hlen Hsize] Hcur Hread Hsz Hin. unfold cursor_ok in Hcur.
  destruct (read_start_returns file sz Hread)
    as (v & actual & file' & Hrun & _ & _ & _ & _ & _ & _ & Hcase).
  destruct Hcase as [(Heof & _) | (_ & -> & Hact & Ho)]; [lia|].
  rewrite (to_long_big sz Hsz) in Hact.
  rewrite (to_long_id (size file - offset file)) in Hact
    by (unfold_limits; lia).
  destruct (Z.gtb_spec (sz - two_64) (size file - offset file)) as [Hgt|_];
    [unfold_limits; lia|].
  subst actual. exists file'. split; [exact Hrun|].
  rewrite Ho. unfold to_off_t, to_long. unfold_limits.
  Z.div_mod_to_equations. lia.
Qed.

(** With sizes that fit a [long], the operations hand a well-formed
    handle on. *)
Lemma well_formed_kept (file : zc_file) :
  mapped file -> cursor_ok file ->
  (forall sz v actual file',
     0 <= sz <= LONG_MAX -> readable file ->
     zc_read_start file sz = Some (v, actual, file') ->
     mapped file' /\ cursor_ok file') /\
  (forall w sz v file',
     0 <= sz <= LONG_MAX ->
     zc_write_start w file sz = Some (Some v, file') ->
     mapped file' /\ cursor_ok file') /\
  (forall msync_ok,
     mapped (zc_write_end msync_ok file) /\
     cursor_ok (zc_write_end msync_ok file)) /\
  (forall off whence ret file',
     zc_lseek file off whence = Some (ret, file') ->
     mapped file' /\ cursor_ok file') /\
  (forall ptr data file',
     poke file ptr data = Some file' -> mapped file' /\ cursor_ok file').
Proof.
  intros Hmap Hcur. split; [|split; [|split; [|split]]].
  - intros sz v actual file' Hsz Hread Hrun.
    destruct (read_start_in_range file sz Hmap Hcur Hread Hsz)
      as (v0 & f0 & Hrun0 & _ & _ & Ho & Hb & Hs).
    rewrite Hrun in Hrun0. inversion Hrun0; subst.
    destruct Hmap as [Hlen Hsize]. unfold mapped, cursor_ok in *.
    rewrite Hb, Hs, Ho. unfold_limits. lia.
  - intros w sz v file' Hsz Hrun.
    destruct (windows_in_range_inside_mapping w file sz Hmap Hcur Hsz)
      as [_ Hwin].
    destruct (Hwin v file' Hrun) as (_ & Hv & Hfit & Hlen' & Ho).
    assert (Hsize_t : is_size_t sz) by (unfold_limits; lia).
    destruct (write_start_cases _ _ _ _ _ Hmap Hcur Hsize_t Hrun)
      as (_ & _ & _ & _ & _ & _ & Hgrow).
    destruct Hmap as [Hlen Hsize]. unfold mapped, cursor_ok in *.
    pose proof (to_off_t_range (offset file + sz)) as Hr.
    destruct Hgrow as [(_ & _ & Hs & _) | (_ & Hlt & Hs & _)];
      rewrite Ho; unfold_limits; lia.
  - intros msync_ok. unfold zc_write_end, mapped, cursor_ok in *.
    simpl_file. auto.
  - intros off whence ret file' Hrun.
    destruct (sem_wait (room_empty file)) as [r|] eqn:Hw;
      [|unfold zc_lseek in Hrun; rewrite Hw in Hrun; discriminate].
    apply sem_wait_some in Hw. destruct Hw as [Hfree _].
    destruct (lseek_returns file off whence Hfree)
      as (ret0 & f0 & Hrun0 & Hb & Hs & _ & _ & _ & Hcase).
    rewrite Hrun in Hrun0. inversion Hrun0; subst.
    unfold mapped, cursor_ok in *. rewrite Hb, Hs.
    split; [exact Hmap|].
    destruct Hcase as [(_ & Ho & _) | (Hpos & Ho & _ & pos & _ & Hp)].
    + rewrite Ho. exact Hcur.
    + rewrite Ho. pose proof (to_off_t_range pos). lia.
  - intros ptr data file' Hpoke.
    destruct (poke_some _ _ _ _ Hpoke)
      as (_ & _ & Hlen' & Hs & Ho & _).
    unfold mapped, cursor_ok in *. rewrite Hlen', Hs, Ho. auto.
Qed.


(** ** The one-byte floor *)

(** C8. The one-byte floor is handed out as file content: on a new,
    empty file (zero bytes on disk, nothing written) [zc_read_start]
    asked for 5 bytes returns a non-null view with size 1, not 0. *)
Theorem read_start_exposes_floor_byte :
  zc_open (world_with []) = Some empty_file /\
  st_size (fd empty_file) = 0 /\
  exists (file' : zc_file),
    zc_read_start empty_file 5 = Some (Some 0, 1, file') /\
    offset file' = 1.
Proof.
  split; [reflexivity|]. split; [reflexivity|].
  eexists. split; [vm_compute; reflexivity | reflexivity].
Qed.

(** The same for every request from 1 byte up to [LONG_MAX]. *)
Lemma read_start_on_empty_file (sz : Z) :
  1 <= sz <= LONG_MAX ->
  exists (file' : zc_file),
    zc_read_start empty_file sz = Some (Some 0, 1, file').
Proof.
  intros Hsz. destruct empty_file_wf as (Hm & Hc & Hq).
  assert (Hsz' : 0 <= sz <= LONG_MAX) by lia.
  destruct (read_start_in_range empty_file sz Hm Hc
              (quiescent_readable _ Hq) Hsz')
    as (v & file' & Hrun & _ & Hv & _).
  rewrite Hv in Hrun by (simpl; lia).
  replace (Z.min sz (Z.max 0 (size empty_file - offset empty_file)))
    with 1 in Hrun by (simpl; lia).
  exists file'. exact Hrun.
Qed.

(** ** Releasing the room *)

(** C6. [zc_write_end] gives the room back whether or not [msync]
    failed, and so does a [zc_lseek] that succeeds; a [zc_lseek] that is
    rejected does not: after [zc_lseek (-1, SEEK_SET)] on the three-byte
    file the room stays taken, and the next seek, write or read on the
    handle waits for ever. *)
Theorem lseek_rejected_keeps_room :
  (forall (msync_ok : bool) (file : zc_file),
     room_empty (zc_write_end msync_ok file) = room_empty file + 1) /\
  (exists (file' : zc_file),
     zc_lseek abc_file 1 SEEK_SET = Some (1, file') /\
     room_empty file' = room_empty abc_file) /\
  (exists (file' : zc_file),
     zc_lseek abc_file (-1) SEEK_SET = Some (-1, file') /\
     room_empty abc_file = 1 /\ room_empty file' = 0 /\
     zc_lseek file' 0 SEEK_SET = None /\
     zc_write_start growing file' 1 = None /\
     zc_read_start file' 1 = None).
Proof.
  split; [reflexivity|]. split.
  - eexists. split; [vm_compute; reflexivity | reflexivity].
  - eexists. split; [vm_compute; reflexivity|]. repeat split.
Qed.

(** Every seek that is accepted gives the room back. *)
Lemma lseek_accepted_releases (file file' : zc_file) (off whence ret : Z) :
  zc_lseek file off whence = Some (ret, file') -> ret <> -1 ->
  room_empty file' = room_empty file.
Proof.
  intros Hrun Hret.
  destruct (sem_wait (room_empty file)) as [r|] eqn:Hw;
    [|unfold zc_lseek in Hrun; rewrite Hw in Hrun; discriminate].
  apply sem_wait_some in Hw. destruct Hw as [Hfree _].
  destruct (lseek_returns file off whence Hfree)
    as (ret0 & f0 & Hrun0 & _ & _ & _ & _ & _ & Hcase).
  rewrite Hrun in Hrun0. injection Hrun0 as <- <-.
  destruct Hcase as [(E & _) | (_ & _ & Hr & _)]; [contradiction | exact Hr].
Qed.

(** ** Size consistency *)

(** C7. The mapped length and the on-disk length can differ after an
    operation returns: a one-byte [zc_write_start] / [zc_write_end] on a
    new, empty file leaves the mapped length 1 over a file of length 0
    although a write has been done, and a [zc_write_start] whose
    [ftruncate] succeeds and whose [mremap] fails returns [NULL] with the
    file already 5 bytes long and the mapped length still 3. *)
Theorem size_mismatch_after_return :
  (exists (f1 : zc_file),
     zc_write_start growing empty_file 1 = Some (Some 0, f1) /\
     size (zc_write_end true f1) = 1 /\
     st_size (fd (zc_write_end true f1)) = 0)
  /\
  (exists (file' : zc_file),
     zc_write_start remap_failing abc_file 5 = Some (None, file') /\
     size file' = 3 /\ st_size (fd file') = 5).
Proof.
  split.
  - eexists. split; [vm_compute; reflexivity|]. split; reflexivity.
  - eexists. split; [vm_compute; reflexivity|]. split; reflexivity.
Qed.

(** Apart from a failed remap, the operations keep the two lengths
    consistent up to the floor of a file that is still empty. *)
Lemma size_consistent_kept :
  forall (file : zc_file),
    mapped file -> cursor_ok file -> size_consistent file ->
    (forall sz v actual file',
       zc_read_start file sz = Some (v, actual, file') ->
       size_consistent file') /\
    (forall file', zc_read_end file = Some file' -> size_consistent file') /\
    (forall msync_ok, size_consistent (zc_write_end msync_ok file)) /\
    (forall off whence ret file',
       zc_lseek file off whence = Some (ret, file') ->
       size_consistent file') /\
    (forall w sz v file',
       is_size_t sz ->
       zc_write_start w file sz = Some (Some v, file') ->
       size_consistent file') /\
    (forall w sz file',
       ftruncate_ok w = false ->
       zc_write_start w file sz = Some (None, file') ->
       size_consistent file').
Proof.
  intros file Hmap Hcur Hcons.
  unfold size_consistent in *. split.
  - intros sz v actual file'. unfold zc_read_start.
    destruct (sem_wait (mutex file)); [|discriminate].
    destruct (if to_int (n_readers file + 1) =? 1
              then sem_wait (room_empty file) else Some (room_empty file));
      [|discriminate].
    simpl_file. destruct (offset file >=? size file);
      intros E; inversion E; subst; simpl_file; exact Hcons.
  - split.
    { intros file'. unfold zc_read_end.
      destruct (sem_wait (mutex file)); [|discriminate].
      intros E. injection E as <-. simpl_file. exact Hcons. }
    split; [intros msync_ok; unfold zc_write_end; simpl_file; exact Hcons|].
    split.
    { intros off whence ret file'. unfold zc_lseek.
      destruct (sem_wait (room_empty file)); [|discriminate].
      simpl_file.
      match goal with
      | |- context [if ?c <? 0 then _ else _] => destruct (c <? 0)
      end; intros E; inversion E; subst; simpl_file; exact Hcons. }
    split.
    { intros w sz v file' Hsz Hrun.
      destruct (write_start_cases _ _ _ _ _ Hmap Hcur Hsz Hrun)
        as (_ & _ & _ & _ & _ & _ & Hgrow).
      destruct Hgrow as [(_ & _ & Hs & Hfd) | (_ & _ & Hs & Hfd & _)].
      - rewrite Hs, Hfd. exact Hcons.
      - rewrite Hs, Hfd. left. reflexivity. }
    intros w sz file' Hft. unfold zc_write_start.
    destruct (sem_wait (room_empty file)); [|discriminate].
    simpl_file.
    destruct (to_long sz >? to_long (size file - offset file)).
    + unfold ftruncate. rewrite Hft.
      destruct (to_off_t (offset file + sz) <? 0);
        intros E; injection E as <-; simpl_file; exact Hcons.
    + discriminate.
Qed.

(** ** Readers and writers *)

Lemma total_split (w : pc -> Z) (before after : list pc) (p : pc) :
  total w (before ++ p :: after) = total w before + w p + total w after.
Proof.
  induction before as [|q before IH]; simpl; [lia|]. rewrite IH. lia.
Qed.

Lemma total_repeat (w : pc -> Z) (p : pc) (n : nat) :
  total w (repeat p n) = Z.of_nat n * w p.
Proof.
  induction n as [|n IH]; [reflexivity|].
  cbn [repeat total]. rewrite IH. lia.
Qed.

(** What the counts of any pool satisfy. *)
Lemma total_facts (l : list pc) :
  0 <= total holds_mutex l /\
  0 <= total counted l <= Z.of_nat (length l) /\
  0 <= total writers l /\
  0 <= total readers l /\
  0 <= total (at_pc RS_wait_room) l <= total entering l /\
  0 <= total (at_pc RE_post_room) l <= total leaving l /\
  0 <= total leaving l /\
  total entering l + total leaving l <= total holds_mutex l /\
  total readers l + total entering l <= total counted l.
Proof.
  induction l as [|p l IH]; [simpl; lia|].
  cbn [total length]. rewrite Nat2Z.inj_succ.
  destruct p; cbv [holds_mutex counted writers readers entering leaving at_pc
                   in_write_window in_read_window Z.b2z] in *; lia.
Qed.

(** One thread inside a pool weighs at most the pool. *)
Lemma total_one (w : pc -> Z) (l : list pc) (i : nat) (p : pc) :
  (forall q, 0 <= w q) -> nth_error l i = Some p -> w p <= total w l.
Proof.
  intros Hw. revert i.
  assert (Hpos : forall l', 0 <= total w l').
  { induction l' as [|q l' IH]; simpl; [lia|]. specialize (Hw q). lia. }
  induction l as [|q l IH]; intros [|i] H; simpl in *; try discriminate.
  - injection H as ->. specialize (Hpos l). lia.
  - specialize (IH i H). specialize (Hw q). lia.
Qed.

Lemma total_two (w : pc -> Z) (l : list pc) (i j : nat) (p q : pc) :
  (forall r, 0 <= w r) -> i <> j ->
  nth_error l i = Some p -> nth_error l j = Some q ->
  w p + w q <= total w l.
Proof.
  intros Hw. revert i j.
  induction l as [|r l IH]; intros [|i] [|j] Hij Hi Hj; simpl in *;
    try discriminate; try congruence.
  - injection Hi as ->. pose proof (total_one w l j q Hw Hj). lia.
  - injection Hj as ->. pose proof (total_one w l i p Hw Hi). lia.
  - assert (Hij' : i <> j) by congruence.
    specialize (IH i j Hij' Hi Hj). specialize (Hw r). lia.
Qed.

Lemma sync_inv_initial (threads : nat) : sync_inv (initial threads).
Proof.
  unfold initial, sem_init.
  constructor; cbn [fst snd s_mutex s_room_empty s_n_readers];
    rewrite ?total_repeat;
    cbv [holds_mutex counted writers readers entering leaving at_pc
         in_write_window in_read_window Z.b2z]; lia.
Qed.

Ltac weigh :=
  cbv [holds_mutex counted writers readers entering leaving at_pc
       in_write_window in_read_window Z.b2z] in *.

Ltac split_moves H :=
  repeat match type of H with
         | _ \/ _ => destruct H as [H|H]
         | False => destruct H
         end.

(** Every move of every thread keeps the invariant, as long as the
    reader count fits an [int]. *)
Lemma sync_inv_step (st st' : pool_state) :
  Z.of_nat (length (snd st)) <= INT_MAX ->
  sync_inv st -> step st st' -> sync_inv st'.
Proof.
  intros Hlen Hinv Hstep.
  destruct Hstep as [s s' p p' before after Hin].
  destruct Hinv as [Hmx Hcnt Hroom Hfirst Hlast Hent Hlv Hgrp].
  destruct s as [m r n].
  cbn [fst snd s_mutex s_room_empty s_n_readers] in *.
  rewrite length_app in Hlen. cbn [length] in Hlen.
  rewrite !total_split in *.
  pose proof (total_facts before) as Fb.
  pose proof (total_facts after) as Fa.
  unfold INT_MAX, two_31 in Hlen.
  destruct p; cbn [thread_step s_mutex s_room_empty s_n_readers] in Hin;
    unfold sem_wait, sem_post in Hin;
    try match type of Hin with
        | context [0 <? ?x] => destruct (Z.ltb_spec 0 x)
        end;
    try match type of Hin with
        | context [?x =? ?y] => destruct (Z.eqb_spec x y)
        end;
    cbn [In] in Hin; split_moves Hin; injection Hin as <- <-;
    (constructor;
     cbn [fst snd s_mutex s_room_empty s_n_readers];
     rewrite !total_split; weigh;
     rewrite ?to_int_id by (unfold INT_MAX, two_31; lia);
     lia).
Qed.

Lemma sync_inv_steps (st st' : pool_state) :
  Z.of_nat (length (snd st)) <= INT_MAX ->
  sync_inv st -> steps st st' -> sync_inv st'.
Proof.
  intros Hlen Hinv Hsteps. induction Hsteps as [st | st1 st2 st3 Hstep _ IH].
  - exact Hinv.
  - apply IH.
    + assert (Hl : length (snd st2) = length (snd st1)).
      { destruct Hstep. cbn [snd]. rewrite !length_app. reflexivity. }
      rewrite Hl. exact Hlen.
    + apply (sync_inv_step st1 st2); assumption.
Qed.

Lemma sync_inv_reachable (threads : nat) (st : pool_state) :
  Z.of_nat threads <= INT_MAX -> reachable threads st -> sync_inv st.
Proof.
  intros Hn Hreach. apply (sync_inv_steps (initial threads) st).
  - unfold initial. cbn [snd]. rewrite repeat_length. exact Hn.
  - apply sync_inv_initial.
  - exact Hreach.
Qed.

(** The invariant rules out conflicting windows. *)
Lemma sync_inv_exclusion (st : pool_state) : sync_inv st -> exclusion st.
Proof.
  intros [Hmx Hcnt Hroom Hfirst Hlast Hent Hlv Hgrp] i j p q Hij Hi Hj Hq.
  pose proof (total_facts (snd st)) as F.
  assert (Hw : forall r, 0 <= writers r)
    by (intros r; unfold writers; destruct (in_write_window r); simpl; lia).
  assert (Hr : forall r, 0 <= readers r)
    by (intros r; unfold readers; destruct (in_read_window r); simpl; lia).
  pose proof (total_two writers (snd st) i j p q Hw Hij Hi Hj) as H2.
  pose proof (total_one writers (snd st) j q Hw Hj) as Hq1.
  pose proof (total_one readers (snd st) i p Hr Hi) as Hp1.
  unfold writers at 1 2 in H2. unfold writers at 1 in Hq1.
  unfold readers at 1 in Hp1. rewrite Hq in *.
  destruct (in_read_window p), (in_write_window p);
    cbn [Z.b2z] in *; split; try reflexivity; exfalso; lia.
Qed.

Lemma steps_trans (st1 st2 st3 : pool_state) :
  steps st1 st2 -> steps st2 st3 -> steps st1 st3.
Proof.
  induction 1 as [st | sa sb sc Hstep _ IH]; intros H; [exact H|].
  apply (steps_cons sa sb st3 Hstep). apply IH. exact H.
Qed.

Ltac move_thread :=
  eapply steps_cons;
  [ apply step_thread;
    cbn [thread_step s_mutex s_room_empty s_n_readers];
    unfold sem_wait, sem_post; cbn [Z.ltb Z.compare Z.add Z.sub Z.opp
                                    Z.pos_sub Pos.add Pos.succ];
    left; reflexivity
  | ].

(** An idle thread gets through [zc_read_start] on its own when [k]
    readers are already inside (the room is free when there is none, and
    theirs otherwise). *)
Lemma reader_enters (before after : list pc) (k : Z) :
  0 <= k < INT_MAX ->
  steps (mk_sync 1 (if k =? 0 then 1 else 0) k, before ++ Idle :: after)
        (mk_sync 1 0 (k + 1), before ++ Reading :: after).
Proof.
  intros Hk.
  move_thread. move_thread. move_thread.
  rewrite (to_int_id (k + 1)) by (unfold_limits; lia).
  move_thread.
  destruct (Z.eqb_spec (k + 1) 1) as [E|E].
  - assert (k = 0) by lia. subst k. cbn [Z.eqb].
    move_thread. move_thread. apply steps_refl.
  - destruct (Z.eqb_spec k 0); [lia|].
    move_thread. apply steps_refl.
Qed.

(** Any number of readers can be inside their windows at once. *)
Lemma readers_together (k m : nat) :
  Z.of_nat (k + m) <= INT_MAX ->
  steps (mk_sync 1 (if Z.of_nat k =? 0 then 1 else 0) (Z.of_nat k),
         repeat Reading k ++ repeat Idle m)
        (mk_sync 1 (if Z.of_nat (k + m) =? 0 then 1 else 0)
                 (Z.of_nat (k + m)),
         repeat Reading (k + m)).
Proof.
  revert k. induction m as [|m IH]; intros k Hk.
  - rewrite Nat.add_0_r, app_nil_r. apply steps_refl.
  - cbn [repeat].
    apply (steps_trans _
             (mk_sync 1 0 (Z.of_nat k + 1),
              repeat Reading k ++ Reading :: repeat Idle m)).
    + apply reader_enters. lia.
    + specialize (IH (S k)).
      replace (k + S m)%nat with (S k + m)%nat by lia.
      replace (repeat Reading k ++ Reading :: repeat Idle m)
        with (repeat Reading (S k) ++ repeat Idle m).
      * replace (Z.of_nat k + 1) with (Z.of_nat (S k)) by lia.
        replace 0 with (if Z.of_nat (S k) =? 0 then 1 else 0) at 1
          by (destruct (Z.eqb_spec (Z.of_nat (S k)) 0); [lia|reflexivity]).
        apply IH. lia.
      * cbn [repeat]. rewrite (repeat_cons k Reading), <- app_assoc.
        reflexivity.
Qed.

(** [zc_read_end] gives up one count, and the room with the last one. *)
Lemma read_end_returns (file : zc_file) :
  0 < mutex file -> 1 <= n_readers file <= INT_MAX ->
  exists (file' : zc_file),
    zc_read_end file = Some file' /\
    mutex file' = mutex file /\
    n_readers file' = n_readers file - 1 /\
    room_empty file'
    = (if n_readers file =? 1 then room_empty file + 1 else room_empty file).
Proof.
  intros Hm Hn. unfold zc_read_end. rewrite (sem_wait_free _ Hm).
  rewrite (to_int_id (n_readers file - 1)) by (unfold_limits; lia).
  eexists. split; [reflexivity|]. simpl_file. unfold sem_post.
  split; [lia|]. split; [reflexivity|].
  destruct (Z.eqb_spec (n_readers file - 1) 0),
           (Z.eqb_spec (n_readers file) 1); try reflexivity; lia.
Qed.

(** [zc_write_start] waits for the room and returns holding it, with a
    view or with [NULL]. *)
Lemma write_start_takes_room (w : grow_world) (file : zc_file) (sz : Z) :
  (room_empty file <= 0 -> zc_write_start w file sz = None) /\
  (forall v file',
     zc_write_start w file sz = Some (v, file') ->
     0 < room_empty file /\ room_empty file' = room_empty file - 1).
Proof.
  unfold zc_write_start. split.
  - intros H. rewrite (sem_wait_blocked _ H). reflexivity.
  - intros v file'.
    destruct (sem_wait (room_empty file)) as [r|] eqn:Hw; [|discriminate].
    apply sem_wait_some in Hw. destruct Hw as [Hfree ->]. simpl_file.
    destruct (to_long sz >? to_long (size file - offset file)).
    + destruct (ftruncate w (fd file) (to_off_t (offset file + sz)));
        [|intros E; inversion E; subst; simpl_file; auto].
      simpl_file.
      destruct (mremap w (base_ptr file) (size file)
                       (to_off_t (offset file + sz)));
        intros E; inversion E; subst; simpl_file; auto.
    + intros E; inversion E; subst; simpl_file; auto.
Qed.

(** Each operation moves the semaphores and the counter as its thread
    moves them in the pool. *)
Lemma operations_are_runs (before after : list pc) (file : zc_file) :
  (forall sz v actual file',
     zc_read_start file sz = Some (v, actual, file') ->
     steps (sync_of file, before ++ Idle :: after)
           (sync_of file', before ++ Reading :: after)) /\
  (forall file',
     zc_read_end file = Some file' ->
     steps (sync_of file, before ++ Reading :: after)
           (sync_of file', before ++ Idle :: after)) /\
  (forall w sz v file',
     zc_write_start w file sz = Some (v, file') ->
     steps (sync_of file, before ++ Idle :: after)
           (sync_of file', before ++ Writing :: after)) /\
  (forall msync_ok,
     steps (sync_of file, before ++ Writing :: after)
           (sync_of (zc_write_end msync_ok file), before ++ Idle :: after)) /\
  (forall off whence ret file',
     zc_lseek file off whence = Some (ret, file') ->
     steps (sync_of file, before ++ Idle :: after)
           (sync_of file', before ++ Idle :: after)).
Proof.
  unfold sync_of. repeat split.
  - intros sz v actual file'. unfold zc_read_start.
    destruct (sem_wait (mutex file)) as [m|] eqn:Hm; [|discriminate].
    destruct (Z.eqb_spec (to_int (n_readers file + 1)) 1) as [E|E].
    + destruct (sem_wait (room_empty file)) as [r|] eqn:Hr; [|discriminate].
      simpl_file. intros Hrun.
      assert (Hsync : mutex file' = sem_post m /\ room_empty file' = r /\
                      n_readers file' = to_int (n_readers file + 1)).
      { destruct (offset file >=? size file);
          inversion Hrun; subst; simpl_file; auto. }
      destruct Hsync as (-> & -> & ->).
      eapply steps_cons; [apply step_thread; simpl; left; reflexivity|].
      eapply steps_cons;
        [apply step_thread; cbn [thread_step s_mutex]; rewrite Hm; left;
         reflexivity|].
      eapply steps_cons; [apply step_thread; simpl; left; reflexivity|].
      eapply steps_cons;
        [apply step_thread; cbn [thread_step s_n_readers]; left;
         reflexivity|].
      rewrite E. cbn [Z.eqb Pos.eqb].
      eapply steps_cons;
        [apply step_thread; cbn [thread_step s_room_empty]; rewrite Hr; left;
         reflexivity|].
      eapply steps_cons; [apply step_thread; simpl; left; reflexivity|].
      apply steps_refl.
    + simpl_file. intros Hrun.
      assert (Hsync : mutex file' = sem_post m /\
                      room_empty file' = room_empty file /\
                      n_readers file' = to_int (n_readers file + 1)).
      { destruct (offset file >=? size file);
          inversion Hrun; subst; simpl_file; auto. }
      destruct Hsync as (-> & -> & ->).
      eapply steps_cons; [apply step_thread; simpl; left; reflexivity|].
      eapply steps_cons;
        [apply step_thread; cbn [thread_step s_mutex]; rewrite Hm; left;
         reflexivity|].
      eapply steps_cons; [apply step_thread; simpl; left; reflexivity|].
      eapply steps_cons;
        [apply step_thread; cbn [thread_step s_n_readers]; left;
         reflexivity|].
      destruct (Z.eqb_spec (to_int (n_readers file + 1)) 1); [contradiction|].
      eapply steps_cons; [apply step_thread; simpl; left; reflexivity|].
      apply steps_refl.
  - intros file'. unfold zc_read_end.
    destruct (sem_wait (mutex file)) as [m|] eqn:Hm; [|discriminate].
    intros E. injection E as <-. simpl_file.
    eapply steps_cons; [apply step_thread; simpl; left; reflexivity|].
    eapply steps_cons;
      [apply step_thread; cbn [thread_step s_mutex]; rewrite Hm; left;
       reflexivity|].
    eapply steps_cons; [apply step_thread; simpl; left; reflexivity|].
    eapply steps_cons;
      [apply step_thread; cbn [thread_step s_n_readers]; left; reflexivity|].
    destruct (to_int (n_readers file - 1) =? 0).
    + eapply steps_cons; [apply step_thread; simpl; left; reflexivity|].
      eapply steps_cons; [apply step_thread; simpl; left; reflexivity|].
      apply steps_refl.
    + eapply steps_cons; [apply step_thread; simpl; left; reflexivity|].
      apply steps_refl.
  - intros w sz v file' Hrun.
    destruct (write_start_takes_room w file sz) as [_ Hroom].
    destruct (Hroom v file' Hrun) as [Hfree Hr].
    assert (Hsame : mutex file' = mutex file /\
                    n_readers file' = n_readers file).
    { revert Hrun. unfold zc_write_start.
      rewrite (sem_wait_free _ Hfree). simpl_file.
      destruct (to_long sz >? to_long (size file - offset file));
        [|intros E; inversion E; subst; simpl_file; auto].
      destruct (ftruncate w (fd file) (to_off_t (offset file + sz)));
        [|intros E; inversion E; subst; simpl_file; auto].
      simpl_file.
      destruct (mremap w (base_ptr file) (size file)
                       (to_off_t (offset file + sz)));
        intros E; inversion E; subst; simpl_file; auto. }
    destruct Hsame as [-> ->]. rewrite Hr.
    eapply steps_cons;
      [apply step_thread; simpl; right; left; reflexivity|].
    eapply steps_cons;
      [apply step_thread; cbn [thread_step s_room_empty];
       rewrite (sem_wait_free _ Hfree); left; reflexivity|].
    apply steps_refl.
  - intros msync_ok. unfold zc_write_end. simpl_file.
    eapply steps_cons; [apply step_thread; simpl; left; reflexivity|].
    eapply steps_cons; [apply step_thread; simpl; left; reflexivity|].
    apply steps_refl.
  - intros off whence ret file'. unfold zc_lseek.
    destruct (sem_wait (room_empty file)) as [r|] eqn:Hr; [|discriminate].
    simpl_file. rewrite lseek_new_offset. intros H.
    eapply steps_cons;
      [apply step_thread; simpl; right; right; left; reflexivity|].
    eapply steps_cons;
      [apply step_thread; cbn [thread_step s_room_empty]; rewrite Hr; left;
       reflexivity|].
    cbn [s_mutex s_n_readers].
    destruct (match seek_target file off whence with
              | Some pos => to_off_t pos
              | None => -1
              end <? 0); inversion H; subst; simpl_file.
    + eapply steps_cons;
        [apply step_thread; simpl; right; left; reflexivity|].
      apply steps_refl.
    + eapply steps_cons; [apply step_thread; simpl; left; reflexivity|].
      eapply steps_cons; [apply step_thread; simpl; left; reflexivity|].
      apply steps_refl.
Qed.

(** A reader inside its window gets through [zc_read_end] on its own
    when [k] other readers are inside: the count drops by one and the
    room comes back with the last reader. *)
Lemma reader_leaves (before after : list pc) (k : Z) :
  0 <= k < INT_MAX ->
  steps (mk_sync 1 0 (k + 1), before ++ Reading :: after)
        (mk_sync 1 (if k =? 0 then 1 else 0) k, before ++ Idle :: after).
Proof.
  intros Hk.
  move_thread. move_thread. move_thread.
  replace (k + 1 - 1) with k by lia.
  rewrite (to_int_id k) by (unfold_limits; lia).
  move_thread.
  destruct (Z.eqb_spec k 0) as [E|E].
  - move_thread. move_thread. apply steps_refl.
  - move_thread. apply steps_refl.
Qed.

(** All the readers inside can leave, one after the other; the room is
    free again once the last one has left. *)
Lemma readers_apart (k m : nat) :
  Z.of_nat m <= INT_MAX ->
  steps (mk_sync 1 (if Z.of_nat m =? 0 then 1 else 0) (Z.of_nat m),
         repeat Idle k ++ repeat Reading m)
        (mk_sync 1 1 0, repeat Idle (k + m)).
Proof.
  revert k. induction m as [|m IH]; intros k Hm.
  - rewrite Nat.add_0_r, app_nil_r. apply steps_refl.
  - cbn [repeat].
    destruct (Z.eqb_spec (Z.of_nat (S m)) 0) as [E|_]; [lia|].
    replace (Z.of_nat (S m)) with (Z.of_nat m + 1) by lia.
    apply (steps_trans _
             (mk_sync 1 (if Z.of_nat m =? 0 then 1 else 0) (Z.of_nat m),
              repeat Idle k ++ Idle :: repeat Reading m)).
    + apply reader_leaves. lia.
    + replace (repeat Idle k ++ Idle :: repeat Reading m)
        with (repeat Idle (S k) ++ repeat Reading m).
      * replace (k + S m)%nat with (S k + m)%nat by lia.
        apply IH. lia.
      * cbn [repeat]. rewrite (repeat_cons k Idle), <- app_assoc.
        reflexivity.
Qed.

(** With the room free, [zc_write_start] returns, holding the room. *)
Lemma write_start_gets_room (w : grow_world) (file : zc_file) (sz : Z) :
  0 < room_empty file ->
  exists (v : view) (file' : zc_file),
    zc_write_start w file sz = Some (v, file') /\
    room_empty file' = room_empty file - 1.
Proof.
  intros Hfree.
  assert (Hrun : exists v file', zc_write_start w file sz = Some (v, file')).
  { unfold zc_write_start. rewrite (sem_wait_free _ Hfree). simpl_file.
    destruct (to_long sz >? to_long (size file - offset file));
      [|do 2 eexists; reflexivity].
    destruct (ftruncate w (fd file) (to_off_t (offset file + sz)));
      [|do 2 eexists; reflexivity].
    simpl_file.
    destruct (mremap w (base_ptr file) (size file)
                     (to_off_t (offset file + sz)));
      do 2 eexists; reflexivity. }
  destruct Hrun as (v & file' & Hrun). exists v, file'.
  split; [exact Hrun|].
  destruct (write_start_takes_room w file sz) as [_ Hroom].
  destruct (Hroom v file' Hrun) as [_ Hr]. exact Hr.
Qed.

(** A thread waiting for the room in [zc_write_start] or in [zc_lseek]
    gets in as soon as the room is free, whatever the others are doing,
    and gives the room back on its way out. *)
Lemma room_is_taken_and_returned (s : sync) (before after : list pc) :
  (0 < s_room_empty s ->
   step (s, before ++ WS_wait_room :: after)
        (mk_sync (s_mutex s) (s_room_empty s - 1) (s_n_readers s),
         before ++ Writing :: after) /\
   step (s, before ++ LS_wait_room :: after)
        (mk_sync (s_mutex s) (s_room_empty s - 1) (s_n_readers s),
         before ++ Seeking :: after)) /\
  steps (s, before ++ Writing :: after)
        (mk_sync (s_mutex s) (s_room_empty s + 1) (s_n_readers s),
         before ++ Idle :: after) /\
  steps (s, before ++ Seeking :: after)
        (mk_sync (s_mutex s) (s_room_empty s + 1) (s_n_readers s),
         before ++ Idle :: after).
Proof.
  split; [|split].
  - intros Hfree.
    split; apply step_thread; cbn [thread_step];
      rewrite (sem_wait_free _ Hfree); left; reflexivity.
  - eapply steps_cons; [apply step_thread; simpl; left; reflexivity|].
    eapply steps_cons; [apply step_thread; simpl; left; reflexivity|].
    apply steps_refl.
  - eapply steps_cons; [apply step_thread; simpl; left; reflexivity|].
    eapply steps_cons; [apply step_thread; simpl; left; reflexivity|].
    apply steps_refl.
Qed.

(** Any one thread of an idle pool can get into its write window, or
    into a seek, and back out. *)
Lemma writer_alone (i j : nat) :
  reachable (i + S j)
    (mk_sync 1 0 0, repeat Idle i ++ Writing :: repeat Idle j) /\
  reachable (i + S j)
    (mk_sync 1 0 0, repeat Idle i ++ Seeking :: repeat Idle j) /\
  steps (mk_sync 1 0 0, repeat Idle i ++ Writing :: repeat Idle j)
        (initial (i + S j)) /\
  steps (mk_sync 1 0 0, repeat Idle i ++ Seeking :: repeat Idle j)
        (initial (i + S j)).
Proof.
  unfold reachable, initial, sem_init. rewrite repeat_app. cbn [repeat].
  pose proof (room_is_taken_and_returned (mk_sync 1 1 0) (repeat Idle i)
                (repeat Idle j)) as (Hin & _).
  destruct Hin as [Hw Hs]; [simpl; lia|].
  pose proof (room_is_taken_and_returned (mk_sync 1 0 0) (repeat Idle i)
                (repeat Idle j)) as (_ & Hwout & Hsout).
  cbn [s_mutex s_room_empty s_n_readers Z.add Z.sub Z.opp Z.pos_sub] in *.
  split; [|split; [|split]].
  - eapply steps_cons;
      [apply step_thread; simpl; right; left; reflexivity|].
    eapply steps_cons; [exact Hw | apply steps_refl].
  - eapply steps_cons;
      [apply step_thread; simpl; right; right; left; reflexivity|].
    eapply steps_cons; [exact Hs | apply steps_refl].
  - exact Hwout.
  - exact Hsout.
Qed.

(** C4. Readers-writer exclusion: in every state a pool of threads can
    reach on one handle, no thread is inside a write (or seek) window
    while another is inside a read window or another write window; any
    number of readers can be inside their read windows together, the room
    being held for the group, and they can all leave again, which frees
    the room; the reader that moves the counter from 0 to 1 takes the
    room and later readers leave it alone, the reader that moves the
    counter from 1 to 0 gives it back and earlier ones leave it alone;
    each writer takes the room in [zc_write_start], which returns as soon
    as the room is free and only then, and gives it back in
    [zc_write_end]; in the pool a waiting writer or seek gets the free
    room, and any one thread can be inside its write window, or inside a
    seek, and leave it again. *)
Theorem readers_writer_exclusion :
  forall (threads : nat),
    Z.of_nat threads <= INT_MAX ->
    (forall st, reachable threads st -> exclusion st) /\
    reachable threads
      (mk_sync 1 (if Z.of_nat threads =? 0 then 1 else 0) (Z.of_nat threads),
       repeat Reading threads) /\
    (forall file sz,
       readable file ->
       exists v actual file',
         zc_read_start file sz = Some (v, actual, file') /\
         n_readers file' = n_readers file + 1 /\
         room_empty file'
         = (if n_readers file =? 0 then room_empty file - 1
            else room_empty file)) /\
    (forall file,
       0 < mutex file -> 1 <= n_readers file <= INT_MAX ->
       exists file',
         zc_read_end file = Some file' /\
         n_readers file' = n_readers file - 1 /\
         room_empty file'
         = (if n_readers file =? 1 then room_empty file + 1
            else room_empty file)) /\
    (forall w file sz,
       (room_empty file <= 0 -> zc_write_start w file sz = None) /\
       (forall v file',
          zc_write_start w file sz = Some (v, file') ->
          0 < room_empty file /\ room_empty file' = room_empty file - 1)) /\
    (forall msync_ok file,
       room_empty (zc_write_end msync_ok file) = room_empty file + 1) /\
    (forall w file sz,
       0 < room_empty file ->
       exists v file',
         zc_write_start w file sz = Some (v, file') /\
         room_empty file' = room_empty file - 1) /\
    steps
      (mk_sync 1 (if Z.of_nat threads =? 0 then 1 else 0) (Z.of_nat threads),
       repeat Reading threads)
      (initial threads) /\
    (forall s before after,
       0 < s_room_empty s ->
       step (s, before ++ WS_wait_room :: after)
            (mk_sync (s_mutex s) (s_room_empty s - 1) (s_n_readers s),
             before ++ Writing :: after) /\
       step (s, before ++ LS_wait_room :: after)
            (mk_sync (s_mutex s) (s_room_empty s - 1) (s_n_readers s),
             before ++ Seeking :: after)) /\
    (forall i j,
       threads = (i + S j)%nat ->
       reachable threads
         (mk_sync 1 0 0, repeat Idle i ++ Writing :: repeat Idle j) /\
       reachable threads
         (mk_sync 1 0 0, repeat Idle i ++ Seeking :: repeat Idle j) /\
       steps (mk_sync 1 0 0, repeat Idle i ++ Writing :: repeat Idle j)
             (initial threads) /\
       steps (mk_sync 1 0 0, repeat Idle i ++ Seeking :: repeat Idle j)
             (initial threads)).
Proof.
  intros threads Hn. split.
  { intros st Hreach. apply sync_inv_exclusion.
    apply (sync_inv_reachable threads); assumption. }
  split.
  { unfold reachable, initial, sem_init.
    apply (readers_together 0 threads). exact Hn. }
  split.
  { intros file sz Hread.
    destruct (read_start_returns file sz Hread)
      as (v & actual & file' & Hrun & _ & Hcount & Hroom & _).
    exists v, actual, file'. auto. }
  split.
  { intros file Hm Hcount.
    destruct (read_end_returns file Hm Hcount)
      as (file' & Hrun & _ & Hc & Hroom).
    exists file'. auto. }
  split; [apply write_start_takes_room|].
  split; [reflexivity|].
  split; [apply write_start_gets_room|].
  split.
  { unfold initial, sem_init. apply (readers_apart 0 threads). exact Hn. }
  split.
  { intros s before after Hfree.
    apply (proj1 (room_is_taken_and_returned s before after)). exact Hfree. }
  intros i j ->. apply writer_alone.
Qed.

Ltac move_in_pool before after :=
  eapply steps_cons;
  [ eapply (step_thread _ _ _ _ before after); cbv;
    first [ left; reflexivity
          | right; left; reflexivity
          | right; right; left; reflexivity ]
  | ].

Lemma readers_writer_exclusion_witness :
  Z.of_nat 3 <= INT_MAX /\
  reachable 3 (mk_sync 1 0 0, [Idle; Writing; Idle]) /\
  reachable 3 (mk_sync 0 0 1, [RS_wait_room; Writing; WS_wait_room]) /\
  exclusion (mk_sync 0 0 1, [RS_wait_room; Writing; WS_wait_room]) /\
  thread_step (mk_sync 0 0 1) RS_wait_room = [] /\
  thread_step (mk_sync 0 0 1) WS_wait_room = [] /\
  steps (mk_sync 1 0 0, [Idle; Writing; Idle]) (initial 3).
Proof.
  assert (Hn : Z.of_nat 3 <= INT_MAX) by (unfold_limits; lia).
  split; [exact Hn|].
  destruct (readers_writer_exclusion 3 Hn)
    as (Hexcl & _ & _ & _ & _ & _ & _ & _ & _ & Hwriter).
  destruct (Hwriter 1%nat 1%nat eq_refl) as (Hw & _ & Hout & _).
  assert (Hc : reachable 3
                 (mk_sync 0 0 1, [RS_wait_room; Writing; WS_wait_room])).
  { unfold reachable. eapply steps_trans; [exact Hw|].
    cbn [repeat app].
    move_in_pool (@nil pc) [Writing; Idle].
    move_in_pool (@nil pc) [Writing; Idle].
    move_in_pool (@nil pc) [Writing; Idle].
    move_in_pool (@nil pc) [Writing; Idle].
    eapply steps_cons;
      [eapply (step_thread _ _ _ _ [RS_wait_room; Writing] (@nil pc)); cbv;
       right; left; reflexivity|].
    apply steps_refl. }
  split; [exact Hw|]. split; [exact Hc|].
  split; [apply Hexcl; exact Hc|].
  split; [reflexivity|]. split; [reflexivity|]. exact Hout.
Defined.

(** * Further properties of the operations *)

Ltac close_cases :=
  repeat split; auto; try lia;
  try solve [left; repeat split; auto; lia];
  try solve [right; repeat split; auto; lia].

(** ** What each call leaves of the handle *)

(** [zc_read_start] changes nothing but the cursor, the counter and the
    semaphores, whether or not the handle is well formed. *)
Lemma read_start_keeps_data (file file' : zc_file) (sz actual : Z) (v : view) :
  zc_read_start file sz = Some (v, actual, file') ->
  base_ptr file' = base_ptr file /\ size file' = size file /\
  fd file' = fd file /\
  ((v = None /\ actual = 0 /\ size file <= offset file /\
    offset file' = offset file)
   \/
   (v = Some (offset file) /\ offset file < size file /\
    actual = (if to_long sz >? to_long (size file - offset file)
              then to_size_t (to_long (size file - offset file)) else sz) /\
    offset file' = to_off_t (offset file + actual))).
Proof.
  unfold zc_read_start.
  destruct (sem_wait (mutex file)) as [m|]; [|discriminate].
  destruct (if to_int (n_readers file + 1) =? 1
            then sem_wait (room_empty file) else Some (room_empty file))
    as [r|]; [|discriminate].
  simpl_file.
  destruct (Z.geb_spec (offset file) (size file)) as [Heof|Hin];
    intros E; inversion E; subst; simpl_file.
  - close_cases.
  - close_cases.
Qed.

Lemma read_end_keeps_data (file file' : zc_file) :
  zc_read_end file = Some file' ->
  base_ptr file' = base_ptr file /\ size file' = size file /\
  fd file' = fd file /\ offset file' = offset file.
Proof.
  unfold zc_read_end.
  destruct (sem_wait (mutex file)) as [m|]; [|discriminate].
  intros E. inversion E; subst. simpl_file. auto.
Qed.

(** A write that gets the room returns, with a view or with [NULL]. *)
Lemma write_start_returns (w : grow_world) (file : zc_file) (sz : Z) :
  0 < room_empty file ->
  exists (v : view) (file' : zc_file),
    zc_write_start w file sz = Some (v, file').
Proof.
  intros Hfree. unfold zc_write_start. rewrite (sem_wait_free _ Hfree).
  simpl_file.
  destruct (to_long sz >? to_long (size file - offset file));
    [|do 2 eexists; reflexivity].
  destruct (ftruncate w (fd file) (to_off_t (offset file + sz)));
    [|do 2 eexists; reflexivity].
  simpl_file.
  destruct (mremap w (base_ptr file) (size file)
                   (to_off_t (offset file + sz)));
    do 2 eexists; reflexivity.
Qed.

(** What a [NULL] from [zc_write_start] leaves behind. *)
Lemma write_start_null (w : grow_world) (file file' : zc_file) (sz : Z) :
  zc_write_start w file sz = Some (None, file') ->
  offset file' = offset file /\ base_ptr file' = base_ptr file /\
  size file' = size file /\ mutex file' = mutex file /\
  n_readers file' = n_readers file /\
  room_empty file' = room_empty file - 1 /\
  (fd file' = fd file \/
   (ftruncate_ok w = true /\ mremap_ok w = false /\
    0 <= to_off_t (offset file + sz) /\
    fd file' = mk_backing (to_off_t (offset file + sz)))).
Proof.
  unfold zc_write_start.
  destruct (sem_wait (room_empty file)) as [r|] eqn:Hw; [|discriminate].
  apply sem_wait_some in Hw. destruct Hw as [_ ->]. simpl_file.
  destruct (to_long sz >? to_long (size file - offset file));
    [|discriminate].
  unfold ftruncate.
  destruct (Z.ltb_spec (to_off_t (offset file + sz)) 0) as [Hneg|Hpos].
  { intros E. inversion E; subst. simpl_file. close_cases. }
  destruct (ftruncate_ok w) eqn:Hft.
  - simpl_file. unfold mremap. destruct (mremap_ok w) eqn:Hmr; [discriminate|].
    intros E. inversion E; subst. simpl_file. close_cases.
  - intros E. inversion E; subst. simpl_file. close_cases.
Qed.

(** ** Start and end calls in pairs *)

(** The end call of a reader that has just entered. *)
Lemma read_end_after_start (file f1 : zc_file) (sz actual : Z) (v : view) :
  readable file ->
  zc_read_start file sz = Some (v, actual, f1) ->
  exists (f2 : zc_file),
    zc_read_end f1 = Some f2 /\
    mutex f2 = mutex file /\ room_empty f2 = room_empty file /\
    n_readers f2 = n_readers file /\
    base_ptr f2 = base_ptr file /\ size f2 = size file /\
    fd f2 = fd file /\ offset f2 = offset f1.
Proof.
  intros Hread Hrun.
  destruct (read_start_returns file sz Hread)
    as (v0 & actual0 & f0 & Hrun0 & Hm & Hn & Hr & Hb & Hs & Hfd & _).
  rewrite Hrun in Hrun0. inversion Hrun0; subst v0 actual0 f0.
  destruct Hread as (Hmutex & Hcount & _).
  assert (Hm1 : 0 < mutex f1) by lia.
  assert (Hn1 : 1 <= n_readers f1 <= INT_MAX) by lia.
  destruct (read_end_returns f1 Hm1 Hn1) as (f2 & Hend & Hm2 & Hn2 & Hr2).
  destruct (read_end_keeps_data f1 f2 Hend) as (Hb2 & Hs2 & Hfd2 & Ho2).
  exists f2. split; [exact Hend|].
  split; [lia|]. split.
  { rewrite Hr2, Hr, Hn.
    destruct (Z.eqb_spec (n_readers file) 0),
             (Z.eqb_spec (n_readers file + 1) 1); lia. }
  split; [lia|]. split; [congruence|]. split; [congruence|].
  split; [congruence | exact Ho2].
Qed.

(** X1. A reader that can enter and then calls [zc_read_end] leaves the
    counter mutex, the room and the reader count as they were, and the
    mapping, its length and the backing file untouched; only the cursor
    has moved. *)
Theorem read_pair_restores_sync :
  forall (file : zc_file) (sz : Z),
    readable file ->
    exists (v : view) (actual : Z) (f1 f2 : zc_file),
      zc_read_start file sz = Some (v, actual, f1) /\
      zc_read_end f1 = Some f2 /\
      mutex f2 = mutex file /\ room_empty f2 = room_empty file /\
      n_readers f2 = n_readers file /\
      base_ptr f2 = base_ptr file /\ size f2 = size file /\
      fd f2 = fd file /\ offset f2 = offset f1.
Proof.
  intros file sz Hread.
  destruct (read_start_returns file sz Hread)
    as (v & actual & f1 & Hrun & _).
  destruct (read_end_after_start file f1 sz actual v Hread Hrun)
    as (f2 & Hend & Hsync).
  exists v, actual, f1, f2.
  split; [exact Hrun|]. split; [exact Hend | exact Hsync].
Qed.

Lemma read_pair_restores_sync_witness :
  readable abc_file /\
  exists (v : view) (actual : Z) (f1 f2 : zc_file),
    zc_read_start abc_file 2 = Some (v, actual, f1) /\
    zc_read_end f1 = Some f2 /\
    room_empty f2 = room_empty abc_file /\ n_readers f2 = 0.
Proof.
  assert (Hr : readable abc_file)
    by (unfold readable; simpl; unfold_limits; lia).
  split; [exact Hr|].
  destruct (read_pair_restores_sync abc_file 2 Hr)
    as (v & actual & f1 & f2 & H1 & H2 & _ & Hroom & Hn & _).
  exists v, actual, f1, f2. repeat split; assumption.
Defined.

(** X2. A [zc_write_start] that finds the room free always returns, with
    a view or with [NULL], holding the room; the [zc_write_end] that
    follows gives the room back in both cases and whatever [msync]
    reports, and neither call touches the mutex or the reader count. *)
Theorem write_pair_restores_room :
  forall (w : grow_world) (msync_ok : bool) (file : zc_file) (sz : Z),
    0 < room_empty file ->
    exists (v : view) (f1 : zc_file),
      zc_write_start w file sz = Some (v, f1) /\
      room_empty f1 = room_empty file - 1 /\
      room_empty (zc_write_end msync_ok f1) = room_empty file /\
      mutex (zc_write_end msync_ok f1) = mutex file /\
      n_readers (zc_write_end msync_ok f1) = n_readers file.
Proof.
  intros w msync_ok file sz Hfree.
  destruct (write_start_returns w file sz Hfree) as (v & f1 & Hrun).
  exists v, f1. split; [exact Hrun|].
  destruct (write_start_takes_room w file sz) as [_ Hroom].
  destruct (Hroom v f1 Hrun) as [_ Hr].
  unfold zc_write_end, sem_post. simpl_file.
  split; [exact Hr|]. split; [lia|].
  revert Hrun. unfold zc_write_start. rewrite (sem_wait_free _ Hfree).
  simpl_file.
  destruct (to_long sz >? to_long (size file - offset file));
    [|intros E; inversion E; subst; simpl_file; auto].
  destruct (ftruncate w (fd file) (to_off_t (offset file + sz)));
    [|intros E; inversion E; subst; simpl_file; auto].
  simpl_file.
  destruct (mremap w (base_ptr file) (size file)
                   (to_off_t (offset file + sz)));
    intros E; inversion E; subst; simpl_file; auto.
Qed.

Lemma write_pair_restores_room_witness :
  0 < room_empty abc_file /\
  exists (f1 : zc_file),
    zc_write_start remap_failing abc_file 5 = Some (None, f1) /\
    room_empty (zc_write_end false f1) = room_empty abc_file.
Proof.
  assert (Hfree : 0 < room_empty abc_file) by (simpl; lia).
  split; [exact Hfree|].
  destruct (write_pair_restores_room remap_failing false abc_file 5 Hfree)
    as (v & f1 & Hrun & _ & Hroom & _).
  exists f1. split; [|exact Hroom].
  rewrite Hrun. vm_compute in Hrun. inversion Hrun; subst. reflexivity.
Defined.

(** ** Reading in pieces *)

Lemma firstn_then_firstn (A : Type) (l : list A) (n1 n2 : nat) :
  firstn n1 l ++ firstn n2 (skipn n1 l) = firstn (n1 + n2) l.
Proof.
  revert l. induction n1 as [|n1 IH]; intros l; [reflexivity|].
  destruct l as [|x l]; simpl.
  - rewrite !firstn_nil. reflexivity.
  - rewrite IH. reflexivity.
Qed.

(** X3. Two reads in a row hand out adjoining windows: after a read of
    up to [a] bytes and its [zc_read_end], a read of up to [b] bytes
    starts where the first one stopped; together they show the bytes of
    the mapping from the old cursor on, [a + b] of them or as many as are
    left, and the cursor ends after them. *)
Theorem consecutive_reads_adjoin :
  forall (file : zc_file) (a b : Z),
    mapped file -> cursor_ok file -> readable file ->
    0 <= a <= LONG_MAX -> 0 <= b <= LONG_MAX ->
    exists (v1 v2 : view) (n1 n2 : Z) (f1 f2 f3 : zc_file),
      zc_read_start file a = Some (v1, n1, f1) /\
      zc_read_end f1 = Some f2 /\
      zc_read_start f2 b = Some (v2, n2, f3) /\
      n1 + n2 = Z.min (a + b) (Z.max 0 (size file - offset file)) /\
      window f1 v1 n1 ++ window f3 v2 n2
      = bytes_between file (offset file) (offset file + n1 + n2) /\
      offset f3 = offset file + n1 + n2.
Proof.
  intros file a b Hmap Hcur Hread Ha Hb.
  destruct (read_start_in_range file a Hmap Hcur Hread Ha)
    as (v1 & f1 & Hrun1 & Hnull1 & Hview1 & Ho1 & Hb1 & Hs1).
  set (n1 := Z.min a (Z.max 0 (size file - offset file))) in *.
  destruct (read_end_after_start file f1 a n1 v1 Hread Hrun1)
    as (f2 & Hend & Hm2 & Hr2 & Hn2 & Hb2 & Hs2 & _ & Ho2).
  destruct Hmap as [Hlen Hsize]. unfold cursor_ok in Hcur.
  assert (Hmap2 : mapped f2) by (unfold mapped; rewrite Hb2, Hs2; auto).
  assert (Hcur2 : cursor_ok f2)
    by (unfold cursor_ok; rewrite Ho2, Ho1; unfold_limits; lia).
  assert (Hread2 : readable f2)
    by (unfold readable in *; rewrite Hm2, Hr2, Hn2; exact Hread).
  destruct (read_start_in_range f2 b Hmap2 Hcur2 Hread2 Hb)
    as (v2 & f3 & Hrun2 & Hnull2 & Hview2 & Ho3 & Hb3 & Hs3).
  rewrite Hs2, Ho2, Ho1 in *.
  set (n2 := Z.min b (Z.max 0 (size file - (offset file + n1)))) in *.
  exists v1, v2, n1, n2, f1, f2, f3.
  split; [exact Hrun1|]. split; [exact Hend|]. split; [exact Hrun2|].
  split; [lia|]. split; [|lia].
  unfold bytes_between.
  replace (offset file + n1 + n2 - offset file) with (n1 + n2) by lia.
  rewrite Z2Nat.inj_add by lia.
  rewrite <- firstn_then_firstn, skipn_skipn.
  replace (Z.to_nat n1 + Z.to_nat (offset file))%nat
    with (Z.to_nat (offset file + n1)) by lia.
  f_equal.
  - destruct (Z_lt_le_dec (offset file) (size file)) as [Hin|Heof].
    + rewrite (Hview1 Hin). unfold window. rewrite Hb1. reflexivity.
    + destruct Hnull1 as [_ Hnull1]. rewrite (Hnull1 Heof).
      replace n1 with 0 by lia. reflexivity.
  - destruct (Z_lt_le_dec (offset file + n1) (size file)) as [Hin|Heof].
    + rewrite (Hview2 Hin). unfold window. rewrite Hb3, Hb2. reflexivity.
    + destruct Hnull2 as [_ Hnull2]. rewrite (Hnull2 Heof).
      replace n2 with 0 by lia. reflexivity.
Qed.

Lemma consecutive_reads_adjoin_witness :
  (mapped abc_file /\ cursor_ok abc_file /\ readable abc_file) /\
  exists (v1 v2 : view) (n1 n2 : Z) (f1 f3 : zc_file),
    zc_read_start abc_file 2 = Some (v1, n1, f1) /\
    n1 + n2 = 3 /\
    window f1 v1 n1 ++ window f3 v2 n2 = bytes_between abc_file 0 3.
Proof.
  assert (Hm : mapped abc_file)
    by (unfold mapped; simpl; unfold_limits; lia).
  assert (Hc : cursor_ok abc_file)
    by (unfold cursor_ok; simpl; unfold_limits; lia).
  assert (Hr : readable abc_file)
    by (unfold readable; simpl; unfold_limits; lia).
  split; [auto|].
  assert (Ha : 0 <= 2 <= LONG_MAX) by (unfold_limits; lia).
  assert (Hb : 0 <= 5 <= LONG_MAX) by (unfold_limits; lia).
  destruct (consecutive_reads_adjoin abc_file 2 5 Hm Hc Hr Ha Hb)
    as (v1 & v2 & n1 & n2 & f1 & f2 & f3 & H1 & _ & _ & Hn & Hw & _).
  exists v1, v2, n1, n2, f1, f3.
  split; [exact H1|].
  assert (Hsum : n1 + n2 = 3) by (rewrite Hn; simpl; lia).
  split; [exact Hsum|].
  rewrite Hw. simpl offset. replace (0 + n1 + n2) with 3 by lia.
  reflexivity.
Defined.

(** ** Writes at the edges *)

(** X4. A [zc_write_start] that returns [NULL] has moved neither the
    cursor nor the mapping nor its recorded length; it still holds the
    room; the backing file is as it was unless [ftruncate] had succeeded
    before [mremap] failed, in which case the file already has the new
    length. *)
Theorem write_null_keeps_cursor_and_mapping :
  forall (w : grow_world) (file file' : zc_file) (sz : Z),
    zc_write_start w file sz = Some (None, file') ->
    offset file' = offset file /\ base_ptr file' = base_ptr file /\
    size file' = size file /\
    room_empty file' = room_empty file - 1 /\
    (fd file' = fd file \/
     (ftruncate_ok w = true /\ mremap_ok w = false /\
      fd file' = mk_backing (to_off_t (offset file + sz)))).
Proof.
  intros w file file' sz Hrun.
  destruct (write_start_null w file file' sz Hrun)
    as (Ho & Hb & Hs & _ & _ & Hr & Hfd).
  repeat split; auto.
  destruct Hfd as [Hfd | (Hft & Hmr & _ & Hfd)]; [left | right]; auto.
Qed.

Lemma write_null_keeps_cursor_and_mapping_witness :
  exists (file' : zc_file),
    zc_write_start remap_failing abc_file 5 = Some (None, file') /\
    offset file' = 0 /\ base_ptr file' = abc /\ st_size (fd file') = 5.
Proof.
  exists (after_write_start remap_failing abc_file 5).
  assert (Hrun : zc_write_start remap_failing abc_file 5
                 = Some (None, after_write_start remap_failing abc_file 5))
    by (vm_compute; reflexivity).
  split; [exact Hrun|].
  destruct (write_null_keeps_cursor_and_mapping remap_failing abc_file
              (after_write_start remap_failing abc_file 5) 5 Hrun)
    as (Ho & Hb & _ & _ & _).
  split; [exact Ho|]. split; [exact Hb|]. vm_compute. reflexivity.
Defined.

(** X5. A write whose end would pass the largest file offset is refused
    in every world: [zc_write_start] returns [NULL] and leaves the handle
    as it was but for the room, which it holds. *)
Theorem write_past_off_max_refused :
  forall (w : grow_world) (file : zc_file) (sz : Z),
    mapped file -> cursor_ok file -> 0 < room_empty file ->
    0 <= sz <= LONG_MAX -> OFF_MAX < offset file + sz ->
    zc_write_start w file sz
    = Some (None, set_room_empty file (room_empty file - 1)).
Proof.
  intros w file sz [Hlen Hsize] Hcur Hfree Hsz Hpast.
  unfold cursor_ok in Hcur. unfold zc_write_start.
  rewrite (sem_wait_free _ Hfree). simpl_file.
  rewrite (to_long_id (size file - offset file)) by (unfold_limits; lia).
  rewrite (to_long_id sz) by (unfold_limits; lia).
  destruct (Z.gtb_spec sz (size file - offset file)) as [_|Hle];
    [|unfold_limits; lia].
  unfold ftruncate.
  assert (Hneg : to_off_t (offset file + sz) < 0).
  { unfold to_off_t, to_long. unfold_limits. Z.div_mod_to_equations. lia. }
  destruct (Z.ltb_spec (to_off_t (offset file + sz)) 0); [reflexivity | lia].
Qed.

Lemma write_past_off_max_refused_witness :
  (mapped (after_lseek abc_file OFF_MAX SEEK_SET) /\
   cursor_ok (after_lseek abc_file OFF_MAX SEEK_SET) /\
   OFF_MAX < offset (after_lseek abc_file OFF_MAX SEEK_SET) + 1) /\
  exists (file' : zc_file),
    zc_write_start growing (after_lseek abc_file OFF_MAX SEEK_SET) 1
    = Some (None, file') /\
    offset file' = OFF_MAX.
Proof.
  assert (Hm : mapped (after_lseek abc_file OFF_MAX SEEK_SET))
    by (unfold mapped; vm_compute; repeat split; intros H; discriminate H).
  assert (Hc : cursor_ok (after_lseek abc_file OFF_MAX SEEK_SET))
    by (unfold cursor_ok; vm_compute; split; intros H; discriminate H).
  assert (Hp : OFF_MAX < offset (after_lseek abc_file OFF_MAX SEEK_SET) + 1)
    by (vm_compute; reflexivity).
  split; [auto|].
  eexists. split.
  - apply (write_past_off_max_refused growing
             (after_lseek abc_file OFF_MAX SEEK_SET) 1 Hm Hc).
    + vm_compute. reflexivity.
    + unfold_limits. lia.
    + exact Hp.
  - vm_compute. reflexivity.
Defined.

(** X6. A write that ends inside the mapping makes no system call: in
    every world [zc_write_start] returns the address of the cursor and
    the same handle, with the cursor moved past the window and the room
    held; mapping, length and backing file are untouched. *)
Theorem write_inside_mapping_same_in_every_world :
  forall (w : grow_world) (file : zc_file) (sz : Z),
    mapped file -> cursor_ok file -> 0 < room_empty file ->
    0 <= sz -> offset file + sz <= size file ->
    zc_write_start w file sz
    = Some (Some (offset file),
            mk_zc_file (base_ptr file) (fd file) (size file)
                       (offset file + sz) (mutex file)
                       (room_empty file - 1) (n_readers file)).
Proof.
  intros w file sz [Hlen Hsize] Hcur Hfree Hsz Hin.
  unfold cursor_ok in Hcur. unfold zc_write_start.
  rewrite (sem_wait_free _ Hfree). simpl_file.
  rewrite (to_long_id (size file - offset file)) by (unfold_limits; lia).
  rewrite (to_long_id sz) by (unfold_limits; lia).
  destruct (Z.gtb_spec sz (size file - offset file)) as [Hgt|_]; [lia|].
  rewrite (to_off_t_id (offset file + sz)) by (unfold_limits; lia).
  reflexivity.
Qed.

Lemma write_inside_mapping_same_in_every_world_witness :
  (mapped abc_file /\ cursor_ok abc_file /\
   offset abc_file + 2 <= size abc_file) /\
  zc_write_start remap_failing abc_file 2
  = zc_write_start growing abc_file 2.
Proof.
  assert (Hm : mapped abc_file)
    by (unfold mapped; simpl; unfold_limits; lia).
  assert (Hc : cursor_ok abc_file)
    by (unfold cursor_ok; simpl; unfold_limits; lia).
  assert (Hfree : 0 < room_empty abc_file) by (simpl; lia).
  assert (Hsz : 0 <= 2) by lia.
  assert (Hin : offset abc_file + 2 <= size abc_file) by (simpl; lia).
  split; [auto|].
  rewrite (write_inside_mapping_same_in_every_world remap_failing abc_file 2
             Hm Hc Hfree Hsz Hin).
  rewrite (write_inside_mapping_same_in_every_world growing abc_file 2
             Hm Hc Hfree Hsz Hin).
  reflexivity.
Defined.

(** X7. No [zc_write_start] rewrites or drops a byte that was mapped:
    for every size a [size_t] can hold and every outcome (view or
    [NULL]), the mapping afterwards is the old one followed by zero
    bytes, and the recorded length has not gone down. *)
Theorem write_start_keeps_mapped_bytes :
  forall (w : grow_world) (file file' : zc_file) (sz : Z) (v : view),
    mapped file -> cursor_ok file -> is_size_t sz ->
    zc_write_start w file sz = Some (v, file') ->
    exists (tail : list byte),
      base_ptr file' = base_ptr file ++ tail /\
      Forall (fun b => b = x00) tail /\
      size file' = size file + Z.of_nat (length tail).
Proof.
  intros w file file' sz v Hmap Hcur Hsz Hrun.
  destruct v as [ptr|].
  - destruct (write_start_cases _ _ _ _ _ Hmap Hcur Hsz Hrun)
      as (_ & _ & _ & _ & _ & _ & Hgrow).
    destruct Hgrow as [(_ & Hb & Hs & _) | (_ & Hlt & Hs & _ & Hb)].
    + exists []. rewrite app_nil_r. simpl. repeat split; auto. lia.
    + eexists. split; [exact Hb|]. split.
      * apply Forall_forall. intros b Hin.
        apply repeat_spec in Hin. exact Hin.
      * rewrite repeat_length, Hs. lia.
  - destruct (write_start_null w file file' sz Hrun)
      as (_ & Hb & Hs & _).
    exists []. rewrite app_nil_r. simpl. repeat split; auto. lia.
Qed.

Lemma write_start_keeps_mapped_bytes_witness :
  (mapped abc_file /\ cursor_ok abc_file /\ is_size_t 5) /\
  exists (tail : list byte),
    base_ptr (after_write_start growing abc_file 5) = abc ++ tail /\
    Forall (fun b => b = x00) tail.
Proof.
  assert (Hm : mapped abc_file)
    by (unfold mapped; simpl; unfold_limits; lia).
  assert (Hc : cursor_ok abc_file)
    by (unfold cursor_ok; simpl; unfold_limits; lia).
  assert (Hs : is_size_t 5) by (unfold_limits; lia).
  split; [auto|].
  destruct (write_start_keeps_mapped_bytes growing abc_file
              (after_write_start growing abc_file 5) 5 (Some 0) Hm Hc Hs)
    as (tail & Hb & Hz & _).
  - vm_compute. reflexivity.
  - exists tail. split; [exact Hb | exact Hz].
Defined.

(** X8. After a [zc_write_start] with a size that fits a [long] has
    returned a view, the mapped length is the larger of the old length
    and the end of the window; so a write of zero bytes after a seek past
    the end still grows the file up to the cursor. *)
Theorem mapped_length_after_write :
  forall (w : grow_world) (file file' : zc_file) (sz ptr : Z),
    mapped file -> cursor_ok file -> 0 <= sz <= LONG_MAX ->
    zc_write_start w file sz = Some (Some ptr, file') ->
    size file' = Z.max (size file) (offset file + sz) /\
    Z.of_nat (length (base_ptr file')) = size file' /\
    offset file' = offset file + sz /\
    (size file < offset file + sz -> st_size (fd file') = offset file + sz) /\
    (offset file + sz <= size file -> fd file' = fd file).
Proof.
  intros w file file' sz ptr Hmap Hcur Hsz Hrun.
  destruct (windows_in_range_inside_mapping w file sz Hmap Hcur Hsz)
    as [_ Hwin].
  destruct (Hwin ptr file' Hrun) as (-> & _ & Hfit & Hlen' & Ho).
  assert (Hsize_t : is_size_t sz) by (unfold_limits; lia).
  destruct (write_start_cases _ _ _ _ _ Hmap Hcur Hsize_t Hrun)
    as (_ & Ho' & _ & _ & _ & _ & Hgrow).
  destruct Hmap as [Hlen Hsize]. unfold cursor_ok in Hcur.
  rewrite (to_long_id sz) in Hgrow by (unfold_limits; lia).
  rewrite Ho in Ho'.
  destruct Hgrow as [(Hle & _ & Hs & Hfd) | (Hgt & _ & Hs & Hfd & _)].
  - repeat split; auto; try lia.
  - rewrite <- Ho' in *. repeat split; auto; try lia.
    + intros _. rewrite Hfd. reflexivity.
Qed.

Lemma mapped_length_after_write_witness :
  (mapped (after_lseek abc_file 10 SEEK_SET) /\
   cursor_ok (after_lseek abc_file 10 SEEK_SET)) /\
  size (after_write_start growing (after_lseek abc_file 10 SEEK_SET) 0) = 10.
Proof.
  assert (Hm : mapped (after_lseek abc_file 10 SEEK_SET))
    by (unfold mapped; vm_compute; repeat split; intros H; discriminate H).
  assert (Hc : cursor_ok (after_lseek abc_file 10 SEEK_SET))
    by (unfold cursor_ok; vm_compute; split; intros H; discriminate H).
  split; [auto|].
  assert (Hsz : 0 <= 0 <= LONG_MAX) by (unfold_limits; lia).
  destruct (mapped_length_after_write growing
              (after_lseek abc_file 10 SEEK_SET)
              (after_write_start growing (after_lseek abc_file 10 SEEK_SET) 0)
              0 10 Hm Hc Hsz) as (Hs & _).
  - vm_compute. reflexivity.
  - rewrite Hs. vm_compute. reflexivity.
Defined.

(** ** Seeks in sequence *)

(** An accepted seek: the handle with the cursor replaced, the room given
    back. *)
Lemma lseek_accepts (file : zc_file) (off whence pos : Z) :
  0 < room_empty file ->
  seek_target file off whence = Some pos -> 0 <= pos <= OFF_MAX ->
  zc_lseek file off whence = Some (pos, set_offset file pos).
Proof.
  intros Hfree Ht Hpos. unfold zc_lseek. rewrite (sem_wait_free _ Hfree).
  simpl_file. rewrite lseek_new_offset, Ht.
  rewrite to_off_t_id by (unfold_limits; lia).
  destruct (Z.ltb_spec pos 0); [lia|].
  unfold sem_post, set_offset, set_room_empty. simpl.
  replace (room_empty file - 1 + 1) with (room_empty file) by lia.
  reflexivity.
Qed.

(** X9. A seek to [k] from the start followed by a seek of 0 from the
    cursor returns [k] both times, for every file offset [k], however it
    compares with the mapped length; the handle ends with the cursor at
    [k] and is otherwise as before. *)
Theorem seek_set_then_seek_cur_zero :
  forall (file : zc_file) (k : Z),
    0 < room_empty file -> 0 <= k <= OFF_MAX ->
    zc_lseek file k SEEK_SET = Some (k, set_offset file k) /\
    zc_lseek (set_offset file k) 0 SEEK_CUR = Some (k, set_offset file k).
Proof.
  intros file k Hfree Hk. split.
  - apply lseek_accepts; auto.
  - rewrite (lseek_accepts (set_offset file k) 0 SEEK_CUR k); auto.
    unfold seek_target. simpl. f_equal. lia.
Qed.

Lemma seek_set_then_seek_cur_zero_witness :
  (0 < room_empty abc_file /\ 0 <= 7 <= OFF_MAX) /\
  zc_lseek (set_offset abc_file 7) 0 SEEK_CUR
  = Some (7, set_offset abc_file 7).
Proof.
  assert (Hfree : 0 < room_empty abc_file) by (simpl; lia).
  assert (Hk : 0 <= 7 <= OFF_MAX) by (unfold_limits; lia).
  split; [auto|].
  exact (proj2 (seek_set_then_seek_cur_zero abc_file 7 Hfree Hk)).
Defined.

(** X10. Relative seeks add up: a seek of [a] from the cursor followed
    by a seek of [b] from the cursor ends where one seek of [a + b] would,
    provided the position in between is a file offset; and a seek of 0
    from the end returns the mapped length. *)
Theorem relative_seeks_add_up :
  forall (file : zc_file) (a b : Z),
    0 < room_empty file ->
    0 <= offset file + a <= OFF_MAX ->
    0 <= offset file + a + b <= OFF_MAX ->
    1 <= size file <= OFF_MAX ->
    exists (f1 f2 : zc_file),
      zc_lseek file a SEEK_CUR = Some (offset file + a, f1) /\
      zc_lseek f1 b SEEK_CUR = Some (offset file + a + b, f2) /\
      zc_lseek file (a + b) SEEK_CUR = Some (offset file + a + b, f2) /\
      zc_lseek file 0 SEEK_END = Some (size file, set_offset file (size file)).
Proof.
  intros file a b Hfree Ha Hab Hsize.
  exists (set_offset file (offset file + a)),
         (set_offset file (offset file + a + b)).
  split; [apply lseek_accepts; auto|]. split.
  - rewrite (lseek_accepts (set_offset file (offset file + a)) b SEEK_CUR
               (offset file + a + b)); auto.
  - split.
    + apply lseek_accepts; auto. unfold seek_target. simpl.
      f_equal. lia.
    + apply lseek_accepts; auto; [|lia]. unfold seek_target. simpl.
      f_equal. lia.
Qed.

Lemma relative_seeks_add_up_witness :
  (0 < room_empty abc_file /\ 0 <= offset abc_file + 5 + (-3) <= OFF_MAX) /\
  exists (f2 : zc_file),
    zc_lseek abc_file (5 + (-3)) SEEK_CUR = Some (2, f2) /\
    zc_lseek abc_file 0 SEEK_END = Some (3, set_offset abc_file 3).
Proof.
  assert (Hfree : 0 < room_empty abc_file) by (simpl; lia).
  assert (Ha : 0 <= offset abc_file + 5 <= OFF_MAX)
    by (simpl; unfold_limits; lia).
  assert (Hab : 0 <= offset abc_file + 5 + (-3) <= OFF_MAX)
    by (simpl; unfold_limits; lia).
  assert (Hs : 1 <= size abc_file <= OFF_MAX)
    by (simpl; unfold_limits; lia).
  split; [auto|].
  destruct (relative_seeks_add_up abc_file 5 (-3) Hfree Ha Hab Hs)
    as (f1 & f2 & _ & _ & H3 & H4).
  exists f2. split; [exact H3 | exact H4].
Defined.

(** ** Appending *)

(** X11. Seeking to the end and writing [B] appends it: where growth
    succeeds, [zc_lseek (0, SEEK_END)], [zc_write_start (length B)] and
    the caller's store leave the old mapping followed by [B], with the
    mapped length and the file length both grown by [length B].  The
    mapped length is what counts as the end, so on a new empty file [B]
    lands after the one-byte floor. *)
Theorem append_at_end :
  forall (w : grow_world) (file : zc_file) (B : list byte),
    mapped file -> 0 < room_empty file ->
    ftruncate_ok w = true -> mremap_ok w = true ->
    B <> [] -> size file + Z.of_nat (length B) <= OFF_MAX ->
    exists (f1 f2 f3 : zc_file),
      zc_lseek file 0 SEEK_END = Some (size file, f1) /\
      zc_write_start w f1 (Z.of_nat (length B))
      = Some (Some (size file), f2) /\
      poke f2 (size file) B = Some f3 /\
      base_ptr f3 = base_ptr file ++ B /\
      size f3 = size file + Z.of_nat (length B) /\
      st_size (fd f3) = size file + Z.of_nat (length B) /\
      offset f3 = size file + Z.of_nat (length B).
Proof.
  intros w file B Hmap Hfree Hft Hmr HB Hfit.
  pose proof Hmap as [Hlen Hsize].
  assert (Hlong : 1 <= Z.of_nat (length B))
    by (destruct B; [contradiction | simpl length; lia]).
  set (f1 := set_offset file (size file)).
  assert (Hseek : zc_lseek file 0 SEEK_END = Some (size file, f1)).
  { apply lseek_accepts; auto; [|lia]. unfold seek_target. simpl.
    f_equal. lia. }
  assert (Hmap1 : mapped f1) by exact Hmap.
  assert (Hcur1 : cursor_ok f1)
    by (unfold cursor_ok, f1; simpl_file; lia).
  assert (Hfree1 : 0 < room_empty f1) by exact Hfree.
  assert (Hnew : size f1 < offset f1 + Z.of_nat (length B) <= OFF_MAX)
    by (unfold f1; simpl_file; lia).
  assert (Hsz : 0 <= Z.of_nat (length B)) by lia.
  pose proof (write_start_grows w f1 (Z.of_nat (length B)) Hmap1 Hcur1 Hfree1
                Hft Hmr Hsz Hnew) as Hws.
  unfold f1 in Hws at 2 3 4 5 6 7 8 9 10 11. simpl_file.
  replace (size file + Z.of_nat (length B) - size file)
    with (Z.of_nat (length B)) in Hws by lia.
  rewrite Nat2Z.id in Hws.
  do 3 eexists. split; [exact Hseek|]. split; [exact Hws|].
  assert (Hn : Z.to_nat (size file) = length (base_ptr file)) by lia.
  unfold poke. simpl_file.
  rewrite length_app, repeat_length.
  destruct (Z.leb_spec 0 (size file)); [|lia].
  destruct (Z.leb_spec (size file + Z.of_nat (length B))
              (Z.of_nat (length (base_ptr file) + length B))); [|lia].
  simpl. split; [reflexivity|]. simpl_file.
  split; [|auto].
  rewrite firstn_app_exact by exact Hn.
  rewrite skipn_all2 by (rewrite length_app, repeat_length; lia).
  rewrite app_nil_r. reflexivity.
Qed.

Lemma append_at_end_witness :
  (mapped abc_file /\ xyz <> [] /\
   size abc_file + Z.of_nat (length xyz) <= OFF_MAX) /\
  exists (f1 f2 f3 : zc_file),
    zc_lseek abc_file 0 SEEK_END = Some (3, f1) /\
    zc_write_start growing f1 3 = Some (Some 3, f2) /\
    poke f2 3 xyz = Some f3 /\
    base_ptr f3 = abc ++ xyz.
Proof.
  assert (Hm : mapped abc_file)
    by (unfold mapped; simpl; unfold_limits; lia).
  assert (Hx : xyz <> []) by discriminate.
  assert (Hfit : size abc_file + Z.of_nat (length xyz) <= OFF_MAX)
    by (simpl; unfold_limits; lia).
  split; [auto|].
  assert (Hfree : 0 < room_empty abc_file) by (simpl; lia).
  destruct (append_at_end growing abc_file xyz Hm Hfree eq_refl eq_refl Hx Hfit)
    as (f1 & f2 & f3 & H1 & H2 & H3 & H4 & _).
  exists f1, f2, f3. auto.
Defined.

(** ** Sizes above LONG_MAX and rejected seeks, in general *)

(** X12. Whatever is left of the mapping, a read request above
    [LONG_MAX] is handed back as it came, never clamped, together with
    the address of the cursor, and the cursor moves back by 2^64 minus
    the request. *)
Theorem read_request_above_long_max_unclamped :
  forall (file : zc_file) (sz : Z),
    mapped file -> cursor_ok file -> readable file ->
    LONG_MAX < sz <= SIZE_MAX -> offset file < size file ->
    exists (file' : zc_file),
      zc_read_start file sz = Some (Some (offset file), sz, file') /\
      offset file' = offset file - (two_64 - sz) /\
      size file - offset file < sz.
Proof.
  intros file sz Hmap Hcur Hread Hsz Hin.
  destruct (read_start_above_long_max file sz Hmap Hcur Hread Hsz Hin)
    as (file' & Hrun & Ho).
  exists file'. split; [exact Hrun|]. split; [lia|].
  destruct Hmap as [_ Hsize]. unfold cursor_ok in Hcur. unfold_limits. lia.
Qed.

Lemma read_request_above_long_max_unclamped_witness :
  (mapped abc_file /\ cursor_ok abc_file /\ readable abc_file /\
   LONG_MAX < two_63 <= SIZE_MAX) /\
  exists (file' : zc_file),
    zc_read_start abc_file two_63 = Some (Some 0, two_63, file').
Proof.
  assert (Hm : mapped abc_file)
    by (unfold mapped; simpl; unfold_limits; lia).
  assert (Hc : cursor_ok abc_file)
    by (unfold cursor_ok; simpl; unfold_limits; lia).
  assert (Hr : readable abc_file)
    by (unfold readable; simpl; unfold_limits; lia).
  assert (Hs : LONG_MAX < two_63 <= SIZE_MAX) by (unfold_limits; lia).
  split; [auto|].
  assert (Hin : offset abc_file < size abc_file) by (simpl; lia).
  destruct (read_request_above_long_max_unclamped abc_file two_63
              Hm Hc Hr Hs Hin) as (file' & Hrun & _).
  exists file'. exact Hrun.
Defined.

(** X13. A seek that is rejected leaves the handle exactly as it was but
    for the room, which it keeps; if the room was the only one, the next
    seek (whatever position and mode it asks for), the next write and the
    next first reader on that handle never return. *)
Theorem rejected_seek_locks_handle :
  forall (file file' : zc_file) (off whence : Z),
    zc_lseek file off whence = Some (-1, file') ->
    file' = set_room_empty file (room_empty file - 1) /\
    (room_empty file = 1 ->
     (forall (off' whence' : Z), zc_lseek file' off' whence' = None) /\
     (forall (w : grow_world) (sz : Z), zc_write_start w file' sz = None) /\
     (to_int (n_readers file + 1) = 1 ->
      forall (sz : Z), zc_read_start file' sz = None)).
Proof.
  intros file file' off whence Hrun.
  assert (Hshape : file' = set_room_empty file (room_empty file - 1)).
  { revert Hrun. unfold zc_lseek.
    destruct (sem_wait (room_empty file)) as [r|] eqn:Hw; [|discriminate].
    apply sem_wait_some in Hw. destruct Hw as [_ ->]. simpl_file.
    match goal with
    | |- context [if ?c <? 0 then _ else _] =>
      destruct (Z.ltb_spec c 0) as [Hneg|Hpos]
    end; intros E; inversion E; subst; [reflexivity | lia]. }
  split; [exact Hshape|].
  intros Hone. subst file'.
  assert (Hblocked : sem_wait (room_empty file - 1) = None)
    by (apply sem_wait_blocked; lia).
  split; [|split].
  - intros off' whence'. unfold zc_lseek. simpl_file. rewrite Hblocked.
    reflexivity.
  - intros w sz. unfold zc_write_start. simpl_file. rewrite Hblocked.
    reflexivity.
  - intros Hfirst sz. unfold zc_read_start. simpl_file.
    destruct (sem_wait (mutex file)); [|reflexivity].
    rewrite Hfirst. simpl. rewrite Hblocked. reflexivity.
Qed.

Lemma rejected_seek_locks_handle_witness :
  zc_lseek abc_file (-4) SEEK_END
  = Some (-1, after_lseek abc_file (-4) SEEK_END) /\
  zc_lseek (after_lseek abc_file (-4) SEEK_END) 0 SEEK_SET = None /\
  zc_write_start growing (after_lseek abc_file (-4) SEEK_END) 1 = None /\
  zc_read_start (after_lseek abc_file (-4) SEEK_END) 1 = None.
Proof.
  assert (Hrun : zc_lseek abc_file (-4) SEEK_END
                 = Some (-1, after_lseek abc_file (-4) SEEK_END))
    by (vm_compute; reflexivity).
  split; [exact Hrun|].
  destruct (rejected_seek_locks_handle abc_file
              (after_lseek abc_file (-4) SEEK_END) (-4) SEEK_END Hrun)
    as [_ Hlock].
  destruct Hlock as (Hs & Hw & Hr); [reflexivity|].
  split; [apply Hs|]. split; [apply Hw|]. apply Hr. reflexivity.
Defined.

(** ** Invariants of handles in use *)

Lemma zc_open_shape (w : open_world) (content : list byte) (file : zc_file) :
  opened w = Some content -> Z.of_nat (length content) <= OFF_MAX ->
  zc_open w = Some file ->
  mapped file /\ cursor_ok file /\ quiescent file /\
  st_size (fd file) = Z.of_nat (length content) /\
  size file = Z.max 1 (Z.of_nat (length content)).
Proof.
  intros Ho Hmax Hrun.
  assert (Hok : fstat_ok w = true /\ mmap_ok w = true).
  { revert Hrun. unfold zc_open, mmap. rewrite Ho.
    destruct (fstat_ok w); [|discriminate].
    destruct (mmap_ok w); [auto | discriminate]. }
  destruct Hok as [Hf Hm].
  destruct (zc_open_some w content Ho Hf Hm Hmax)
    as (file0 & Hrun0 & Hmap & Hcur & Hq & Hst & _).
  rewrite Hrun in Hrun0. inversion Hrun0; subst file0.
  repeat split; try apply Hmap; try apply Hcur; try apply Hq; auto.
  revert Hrun. unfold zc_open, mmap. rewrite Ho, Hf, Hm. simpl.
  intros E. inversion E; subst. simpl_file.
  destruct (Z.eqb_spec (Z.of_nat (length content)) 0); lia.
Qed.

Lemma in_use_any (ok_world : grow_world -> Prop) (file : zc_file) :
  in_use ok_world file -> in_use any_world file.
Proof.
  induction 1.
  - eapply use_open; eassumption.
  - eapply use_read_start; eassumption.
  - eapply use_read_end; eassumption.
  - eapply use_write_start; try eassumption. exact I.
  - eapply use_poke; eassumption.
  - apply use_write_end. assumption.
  - eapply use_lseek; eassumption.
Qed.

Lemma in_use_well_formed (file : zc_file) :
  in_use any_world file ->
  mapped file /\ cursor_ok file /\ 0 <= st_size (fd file) <= OFF_MAX.
Proof.
  induction 1 as [w content file Ho Hmax Hrun
                 | file file' sz actual v _ IH Hsz Hrun
                 | file file' _ IH Hrun
                 | w file file' sz v _ IH _ Hsz Hrun
                 | file file' ptr data _ IH Hrun
                 | msync_ok file _ IH
                 | file file' off whence ret _ IH Hrun].
  - destruct (zc_open_shape w content file Ho Hmax Hrun)
      as (Hm & Hc & _ & Hst & _).
    repeat split; try apply Hm; try apply Hc; lia.
  - destruct IH as ([Hlen Hsize] & Hcur & Hfd). unfold cursor_ok in Hcur.
    destruct (read_start_keeps_data file file' sz actual v Hrun)
      as (Hb & Hs & Hf & Hcase).
    unfold mapped, cursor_ok. rewrite Hb, Hs, Hf.
    split; [auto|]. split; [|exact Hfd].
    destruct Hcase as [(_ & _ & _ & Ho) | (_ & Hin & Hact & Ho)].
    + rewrite Ho. exact Hcur.
    + rewrite (to_long_id (size file - offset file)) in Hact
        by (unfold_limits; lia).
      rewrite (to_long_id sz) in Hact by (unfold_limits; lia).
      assert (Ha : 0 <= actual <= size file - offset file).
      { destruct (Z.gtb_spec sz (size file - offset file)).
        - rewrite to_size_t_id in Hact by (unfold_limits; lia). lia.
        - lia. }
      rewrite Ho, to_off_t_id by (unfold_limits; lia). lia.
  - destruct IH as (Hmap & Hcur & Hfd).
    destruct (read_end_keeps_data file file' Hrun) as (Hb & Hs & Hf & Ho).
    unfold mapped, cursor_ok in *. rewrite Hb, Hs, Hf, Ho. auto.
  - destruct IH as (Hmap & Hcur & Hfd).
    destruct v as [ptr|].
    + destruct (well_formed_kept file Hmap Hcur) as (_ & Hw & _).
      destruct (Hw w sz ptr file' Hsz Hrun) as [Hm' Hc'].
      split; [exact Hm'|]. split; [exact Hc'|].
      assert (Hsize_t : is_size_t sz) by (unfold_limits; lia).
      destruct (write_start_cases _ _ _ _ _ Hmap Hcur Hsize_t Hrun)
        as (_ & _ & _ & _ & _ & _ & Hgrow).
      pose proof (to_off_t_range (offset file + sz)) as Hr.
      destruct Hmap as [_ Hsize].
      destruct Hgrow as [(_ & _ & _ & Hf) | (_ & Hlt & _ & Hf & _)];
        rewrite Hf; [exact Hfd | simpl; lia].
    + destruct (write_start_null w file file' sz Hrun)
        as (Ho & Hb & Hs & _ & _ & _ & Hf).
      unfold mapped, cursor_ok in *. rewrite Ho, Hb, Hs.
      split; [exact Hmap|]. split; [exact Hcur|].
      pose proof (to_off_t_range (offset file + sz)) as Hr.
      destruct Hf as [Hf | (_ & _ & Hpos & Hf)]; rewrite Hf;
        [exact Hfd | simpl; lia].
  - destruct IH as (Hmap & Hcur & Hfd).
    destruct (poke_some _ _ _ _ Hrun)
      as (_ & _ & Hlen' & Hs & Ho & Hf & _).
    unfold mapped, cursor_ok in *. rewrite Hlen', Hs, Ho, Hf. auto.
  - unfold zc_write_end, mapped, cursor_ok in *. simpl_file. exact IH.
  - destruct IH as (Hmap & Hcur & Hfd).
    destruct (well_formed_kept file Hmap Hcur) as (_ & _ & _ & Hl & _).
    destruct (Hl off whence ret file' Hrun) as [Hm' Hc'].
    split; [exact Hm'|]. split; [exact Hc'|].
    destruct (sem_wait (room_empty file)) as [r|] eqn:Hw;
      [|unfold zc_lseek in Hrun; rewrite Hw in Hrun; discriminate].
    apply sem_wait_some in Hw. destruct Hw as [Hfree _].
    destruct (lseek_returns file off whence Hfree)
      as (ret0 & f0 & Hrun0 & _ & _ & Hf & _).
    rewrite Hrun in Hrun0. inversion Hrun0; subst. rewrite Hf. exact Hfd.
Qed.

(** X14. Every handle a program reaches from [zc_open] through
    [zc_read_start], [zc_read_end], [zc_write_start], stores through
    views, [zc_write_end] and [zc_lseek], with sizes that fit a [long]
    and in any world, is well formed: its mapping has [size] bytes,
    [size] is at least 1, and the cursor and both lengths are file
    offsets; in particular the cursor is never negative. *)
Theorem handles_in_use_are_well_formed :
  forall (file : zc_file),
    in_use any_world file ->
    Z.of_nat (length (base_ptr file)) = size file /\
    1 <= size file <= OFF_MAX /\
    0 <= offset file <= OFF_MAX /\
    0 <= st_size (fd file) <= OFF_MAX.
Proof.
  intros file Huse.
  destruct (in_use_well_formed file Huse) as ([Hlen Hsize] & Hcur & Hfd).
  auto.
Qed.

Lemma handles_in_use_are_well_formed_witness :
  in_use any_world (after_write_start remap_failing abc_file 5) /\
  0 <= offset (after_write_start remap_failing abc_file 5) <= OFF_MAX.
Proof.
  assert (Huse : in_use any_world (after_write_start remap_failing abc_file 5)).
  { apply (use_write_start any_world remap_failing abc_file
             (after_write_start remap_failing abc_file 5) 5 None).
    - apply (use_open any_world (world_with abc) abc abc_file).
      + reflexivity.
      + simpl. unfold_limits. lia.
      + reflexivity.
    - exact I.
    - unfold_limits. lia.
    - vm_compute. reflexivity. }
  split; [exact Huse|].
  destruct (handles_in_use_are_well_formed _ Huse) as (_ & _ & Ho & _).
  exact Ho.
Defined.

(** X15. As long as no [mremap] fails after a successful [ftruncate],
    every handle in use keeps its mapped length equal to the length of
    the backing file, except that a file of length 0 is mapped with
    length 1. *)
Theorem handles_in_use_are_size_consistent :
  forall (file : zc_file),
    in_use remap_follows file -> size_consistent file.
Proof.
  induction 1 as [w content file Ho Hmax Hrun
                 | file file' sz actual v Huse IH Hsz Hrun
                 | file file' Huse IH Hrun
                 | w file file' sz v Huse IH Hw Hsz Hrun
                 | file file' ptr data Huse IH Hrun
                 | msync_ok file Huse IH
                 | file file' off whence ret Huse IH Hrun].
  - destruct (zc_open_shape w content file Ho Hmax Hrun)
      as (_ & _ & _ & Hst & Hs).
    unfold size_consistent. rewrite Hst, Hs. lia.
  - destruct (read_start_keeps_data file file' sz actual v Hrun)
      as (_ & Hs & Hf & _).
    unfold size_consistent in *. rewrite Hs, Hf. exact IH.
  - destruct (read_end_keeps_data file file' Hrun) as (_ & Hs & Hf & _).
    unfold size_consistent in *. rewrite Hs, Hf. exact IH.
  - destruct (in_use_well_formed file (in_use_any _ _ Huse))
      as (Hmap & Hcur & _).
    destruct v as [ptr|].
    + destruct (size_consistent_kept file Hmap Hcur IH)
        as (_ & _ & _ & _ & Hws & _).
      apply (Hws w sz ptr file'); [unfold_limits; lia | exact Hrun].
    + destruct (write_start_null w file file' sz Hrun)
        as (_ & _ & Hs & _ & _ & _ & Hf).
      unfold size_consistent in *. rewrite Hs.
      destruct Hf as [Hf | (Hft & Hmr & _)].
      * rewrite Hf. exact IH.
      * unfold remap_follows in Hw. rewrite (Hw Hft) in Hmr. discriminate.
  - destruct (poke_some _ _ _ _ Hrun) as (_ & _ & _ & Hs & _ & Hf & _).
    unfold size_consistent in *. rewrite Hs, Hf. exact IH.
  - unfold zc_write_end, size_consistent in *. simpl_file. exact IH.
  - destruct (in_use_well_formed file (in_use_any _ _ Huse))
      as (Hmap & Hcur & _).
    destruct (size_consistent_kept file Hmap Hcur IH)
      as (_ & _ & _ & Hl & _).
    apply (Hl off whence ret file' Hrun).
Qed.

Lemma handles_in_use_are_size_consistent_witness :
  in_use remap_follows (after_write_start growing abc_file 5) /\
  size_consistent (after_write_start growing abc_file 5).
Proof.
  assert (Huse : in_use remap_follows (after_write_start growing abc_file 5)).
  { apply (use_write_start remap_follows growing abc_file
             (after_write_start growing abc_file 5) 5 (Some 0)).
    - apply (use_open remap_follows (world_with abc) abc abc_file).
      + reflexivity.
      + simpl. unfold_limits. lia.
      + reflexivity.
    - intros _. reflexivity.
    - unfold_limits. lia.
    - vm_compute. reflexivity. }
  split; [exact Huse|].
  exact (handles_in_use_are_size_consistent _ Huse).
Defined.

(** ** Opening and closing *)

(** X16. [zc_open] returns [NULL] exactly when [open], [fstat] or [mmap]
    fails.  Otherwise the handle has the cursor at 0, both semaphores
    free and no reader; its length is the file's, or 1 for an empty
    file; its mapping starts with the file's bytes.  When [open] fails
    nothing is held; when [fstat] or [mmap] is the call that fails, the
    descriptor [open] returned is left open. *)
Theorem zc_open_outcomes :
  forall (w : open_world),
    (zc_open w = None <->
     opened w = None \/ fstat_ok w = false \/ mmap_ok w = false) /\
    (opened w = None -> zc_open_holds w = nothing_held) /\
    (opened w <> None -> zc_open w = None ->
     zc_open_holds w = descriptor_only) /\
    (forall content file,
       opened w = Some content ->
       Z.of_nat (length content) <= OFF_MAX ->
       zc_open w = Some file ->
       zc_open_holds w = all_held /\
       offset file = 0 /\ mutex file = 1 /\ room_empty file = 1 /\
       n_readers file = 0 /\
       st_size (fd file) = Z.of_nat (length content) /\
       size file = Z.max 1 (Z.of_nat (length content)) /\
       firstn (length content) (base_ptr file) = content /\
       Z.of_nat (length (base_ptr file)) = size file).
Proof.
  intros w.
  split; [|split; [|split]].
  - unfold zc_open, mmap.
    destruct (opened w) as [content|], (fstat_ok w), (mmap_ok w); simpl;
      split; intros H; try discriminate; auto;
      repeat match goal with
             | H : _ \/ _ |- _ => destruct H
             end; discriminate.
  - intros Ho. unfold zc_open_holds. rewrite Ho. reflexivity.
  - unfold zc_open, zc_open_holds, mmap.
    destruct (opened w) as [content|]; [|congruence].
    destruct (fstat_ok w), (mmap_ok w); simpl; intros _ H;
      try discriminate; reflexivity.
  - intros content file Ho Hmax Hrun.
    destruct (zc_open_shape w content file Ho Hmax Hrun)
      as ([Hlen Hsize] & Hcur & (Hm & Hr & Hn) & Hst & Hs).
    assert (Hok : fstat_ok w = true /\ mmap_ok w = true).
    { revert Hrun. unfold zc_open, mmap. rewrite Ho.
      destruct (fstat_ok w); [|discriminate].
      destruct (mmap_ok w); [auto | discriminate]. }
    destruct Hok as [Hf Hmm].
    split.
    { unfold zc_open_holds, mmap. rewrite Ho, Hf, Hmm. reflexivity. }
    assert (Hrest : offset file = 0 /\
                    firstn (length content) (base_ptr file) = content).
    { revert Hrun. unfold zc_open, mmap. rewrite Ho, Hf, Hmm.
      cbn [negb]. intros E. inversion E; subst. simpl_file.
      split; [reflexivity|].
      rewrite firstn_firstn.
      rewrite Nat.min_l
        by (destruct (Z.eqb_spec (Z.of_nat (length content)) 0); lia).
      apply firstn_app_exact. reflexivity. }
    destruct Hrest as [Hoff Hfirst].
    repeat split; assumption.
Qed.

Lemma zc_open_outcomes_witness :
  zc_open (mk_open_world (Some abc) true false) = None /\
  zc_open_holds (mk_open_world (Some abc) true false) = descriptor_only.
Proof.
  destruct (zc_open_outcomes (mk_open_world (Some abc) true false))
    as (Hnull & _ & Hleak & _).
  assert (Hn : zc_open (mk_open_world (Some abc) true false) = None)
    by (apply Hnull; right; right; reflexivity).
  split; [exact Hn|]. apply Hleak; [discriminate | exact Hn].
Defined.

(** X17. On a handle with a mapped length of at least 1, [zc_close]
    returns 0 exactly when [fsync], [munmap] and [close] all succeed, and
    -1 otherwise.  On 0 the mapping, the descriptor, the semaphores and
    the handle's block are gone, but the two [sem_t] blocks are still
    allocated.  When [fsync] or [munmap] fails nothing at all has been
    released; when [close] fails the mapping is gone while the
    semaphores and all three blocks stay. *)
Theorem zc_close_outcomes :
  forall (w : close_world) (file : zc_file),
    1 <= size file ->
    (fst (zc_close w file all_held) = 0 <->
     fsync_ok w = true /\ munmap_ok w = true /\ close_ok w = true) /\
    (fst (zc_close w file all_held) = 0 \/
     fst (zc_close w file all_held) = -1) /\
    (fst (zc_close w file all_held) = 0 ->
     snd (zc_close w file all_held) = mk_held false false false 2 false) /\
    (fsync_ok w = false \/ munmap_ok w = false ->
     snd (zc_close w file all_held) = all_held) /\
    (fsync_ok w = true -> munmap_ok w = true -> close_ok w = false ->
     snd (zc_close w file all_held)
     = mk_held (descriptor_survives w) false true 2 true).
Proof.
  intros w file Hsize. unfold zc_close, munmap.
  destruct (Z.ltb_spec 0 (size file)) as [_|]; [|lia].
  destruct (fsync_ok w), (munmap_ok w), (close_ok w); simpl;
    repeat split; auto; try discriminate; try tauto;
    intros; try discriminate;
    repeat match goal with
           | H : _ /\ _ |- _ => destruct H
           | H : _ \/ _ |- _ => destruct H
           end; try discriminate.
Qed.

Lemma zc_close_outcomes_witness :
  1 <= size abc_file /\
  snd (zc_close (mk_close_world true true true false) abc_file all_held)
  = mk_held false false false 2 false.
Proof.
  assert (Hs : 1 <= size abc_file) by (simpl; lia).
  split; [exact Hs|].
  destruct (zc_close_outcomes (mk_close_world true true true false)
              abc_file Hs) as (_ & _ & Hdone & _).
  apply Hdone. reflexivity.
Defined.

(** ** zc_copyfile *)

Lemma fs_set_same (fs : filesystem) (p : String.string) (c : list byte) :
  fs_set fs p c p = Some c.
Proof. unfold fs_set. rewrite String.eqb_refl. reflexivity. Qed.

Lemma fs_set_other (fs : filesystem) (p q : String.string) (c : list byte) :
  q <> p -> fs_set fs p c q = fs q.
Proof.
  intros H. unfold fs_set.
  destruct (String.eqb_spec q p); [contradiction | reflexivity].
Qed.

Lemma open_creat_same (fs : filesystem) (p : String.string) :
  open_creat fs p p = Some (contents fs p).
Proof.
  unfold open_creat, contents. destruct (fs p) eqn:E; [exact E|].
  apply fs_set_same.
Qed.

Lemma open_creat_other (fs : filesystem) (p q : String.string) :
  q <> p -> open_creat fs p q = fs q.
Proof.
  intros H. unfold open_creat. destruct (fs p); [reflexivity|].
  apply fs_set_other. exact H.
Qed.

Lemma resize_length (n : nat) (c : list byte) : length (resize n c) = n.
Proof.
  unfold resize. rewrite length_firstn, length_app, repeat_length. lia.
Qed.

(** When every call succeeds: 0 is returned; [dest] holds what
    [copy_file_range] copied of [source], followed by what the resized
    [dest] held from there on; nothing else changes. *)
Lemma copyfile_when_calls_succeed (w : copy_world) (fs : filesystem)
      (source dest : String.string) (reported : nat) :
  source <> dest ->
  open_source_ok w = true -> source_fstat_ok w = true ->
  open_dest_ok w = true -> dest_ftruncate_ok w = true ->
  copy_reports w = Some reported -> dest_close_ok w = true ->
  copy_ret (zc_copyfile w fs source dest) = 0 /\
  copy_fs (zc_copyfile w fs source dest) dest
  = Some (firstn (Nat.min reported (length (contents fs source)))
                 (contents fs source)
            ++ skipn (Nat.min reported (length (contents fs source)))
                     (resize (length (contents fs source))
                             (contents fs dest))) /\
  copy_fs (zc_copyfile w fs source dest) source
  = Some (contents fs source) /\
  (forall q, q <> source -> q <> dest ->
             copy_fs (zc_copyfile w fs source dest) q = fs q).
Proof.
  intros Hne Ho Hf Hd Ht Hc Hcl. unfold zc_copyfile.
  rewrite Ho, Hf, Hd, Ht, Hc, Hcl. cbn [negb copy_ret copy_fs].
  assert (Hsrc1 : contents (open_creat fs source) source
                  = contents fs source).
  { unfold contents at 1. rewrite open_creat_same. reflexivity. }
  assert (Hdst2 : contents (open_creat (open_creat fs source) dest) dest
                  = contents fs dest).
  { unfold contents at 1. rewrite open_creat_same.
    unfold contents. rewrite open_creat_other by congruence. reflexivity. }
  rewrite Hsrc1, Hdst2.
  set (n := length (contents fs source)).
  set (fs3 := fs_set (open_creat (open_creat fs source) dest) dest
                     (resize n (contents fs dest))).
  assert (Hsrc3 : fs3 source = Some (contents fs source)).
  { unfold fs3. rewrite fs_set_other by exact Hne.
    rewrite open_creat_other by exact Hne. apply open_creat_same. }
  assert (Hdst3 : contents fs3 dest = resize n (contents fs dest)).
  { unfold contents, fs3. rewrite fs_set_same. reflexivity. }
  split; [reflexivity|]. split; [|split].
  - rewrite fs_set_same. unfold contents at 1. rewrite Hsrc3, Hdst3.
    reflexivity.
  - rewrite fs_set_other by exact Hne. exact Hsrc3.
  - intros q Hqs Hqd. rewrite fs_set_other by exact Hqd.
    unfold fs3. rewrite fs_set_other by exact Hqd.
    rewrite !open_creat_other by assumption. reflexivity.
Qed.

(** Copying at least as many bytes as [source] holds replaces the
    resized [dest] by [source]. *)
Lemma whole_copy_bytes (reported : nat) (src old : list byte) :
  (length src <= reported)%nat ->
  firstn (Nat.min reported (length src)) src
    ++ skipn (Nat.min reported (length src)) (resize (length src) old)
  = src.
Proof.
  intros Hall. rewrite Nat.min_r by exact Hall.
  rewrite firstn_all.
  rewrite skipn_all2 by (rewrite resize_length; lia).
  apply app_nil_r.
Qed.

(** X18. When every call succeeds and [copy_file_range] copies the whole
    of [source] in its one call, [zc_copyfile] returns 0 and [dest]
    holds exactly the bytes of [source], whatever [dest] held before and
    whether or not it existed; [source] is unchanged (a missing [source]
    counts as empty and now exists), and so is every other file. *)
Theorem copyfile_copies_whole_source :
  forall (w : copy_world) (fs : filesystem) (source dest : String.string)
         (reported : nat),
    source <> dest ->
    open_source_ok w = true -> source_fstat_ok w = true ->
    open_dest_ok w = true -> dest_ftruncate_ok w = true ->
    copy_reports w = Some reported -> dest_close_ok w = true ->
    (length (contents fs source) <= reported)%nat ->
    copy_ret (zc_copyfile w fs source dest) = 0 /\
    copy_fs (zc_copyfile w fs source dest) dest
    = Some (contents fs source) /\
    copy_fs (zc_copyfile w fs source dest) source
    = Some (contents fs source) /\
    (forall q, q <> source -> q <> dest ->
               copy_fs (zc_copyfile w fs source dest) q = fs q).
Proof.
  intros w fs source dest reported Hne Ho Hf Hd Ht Hc Hcl Hall.
  destruct (copyfile_when_calls_succeed w fs source dest reported
              Hne Ho Hf Hd Ht Hc Hcl) as (Hret & Hdest & Hsrc & Hrest).
  split; [exact Hret|]. split; [|split; [exact Hsrc | exact Hrest]].
  rewrite Hdest, whole_copy_bytes by exact Hall. reflexivity.
Qed.

Lemma copyfile_copies_whole_source_witness :
  path_a <> path_b /\
  copy_ret (zc_copyfile (copying 3) two_files path_a path_b) = 0 /\
  copy_fs (zc_copyfile (copying 3) two_files path_a path_b) path_b
  = Some abc.
Proof.
  assert (Hne : path_a <> path_b) by discriminate.
  split; [exact Hne|].
  destruct (copyfile_copies_whole_source (copying 3) two_files path_a path_b 3
              Hne eq_refl eq_refl eq_refl eq_refl eq_refl eq_refl)
    as (Hret & Hdest & _).
  - vm_compute. lia.
  - split; [exact Hret | exact Hdest].
Defined.

(** X19. A short copy passes for success: when [copy_file_range]
    reports fewer bytes than [source] holds, [zc_copyfile] still returns
    0; [dest] has the length of [source] but only that many of its
    leading bytes, the rest being what the resized [dest] held (its old
    bytes, or zeros past its old end). *)
Theorem copyfile_short_copy_returns_zero :
  forall (w : copy_world) (fs : filesystem) (source dest : String.string)
         (reported : nat),
    source <> dest ->
    open_source_ok w = true -> source_fstat_ok w = true ->
    open_dest_ok w = true -> dest_ftruncate_ok w = true ->
    copy_reports w = Some reported -> dest_close_ok w = true ->
    (reported < length (contents fs source))%nat ->
    copy_ret (zc_copyfile w fs source dest) = 0 /\
    exists (now : list byte),
      copy_fs (zc_copyfile w fs source dest) dest = Some now /\
      length now = length (contents fs source) /\
      firstn reported now = firstn reported (contents fs source) /\
      skipn reported now
      = skipn reported (resize (length (contents fs source))
                               (contents fs dest)).
Proof.
  intros w fs source dest reported Hne Ho Hf Hd Ht Hc Hcl Hshort.
  destruct (copyfile_when_calls_succeed w fs source dest reported
              Hne Ho Hf Hd Ht Hc Hcl) as (Hret & Hdest & _).
  split; [exact Hret|].
  rewrite Nat.min_l in Hdest by lia.
  eexists. split; [exact Hdest|].
  assert (Hlen : length (firstn reported (contents fs source)) = reported)
    by (rewrite length_firstn; lia).
  split; [|split].
  - rewrite length_app, Hlen, length_skipn, resize_length. lia.
  - apply firstn_app_exact. symmetry. exact Hlen.
  - apply skipn_app_exact. symmetry. exact Hlen.
Qed.

Lemma copyfile_short_copy_returns_zero_witness :
  path_a <> path_c /\
  copy_ret (zc_copyfile (copying 1) two_files path_a path_c) = 0 /\
  copy_fs (zc_copyfile (copying 1) two_files path_a path_c) path_c
  = Some [x61; x00; x00].
Proof.
  assert (Hne : path_a <> path_c) by discriminate.
  split; [exact Hne|].
  destruct (copyfile_short_copy_returns_zero (copying 1) two_files
              path_a path_c 1
              Hne eq_refl eq_refl eq_refl eq_refl eq_refl eq_refl)
    as (Hret & _).
  - vm_compute. lia.
  - split; [exact Hret | vm_compute; reflexivity].
Defined.

(** X20. [zc_copyfile] returns 0 or -1, and 0 exactly when the two
    [open], [fstat], [ftruncate], [copy_file_range] and [close] all
    succeed; when the first [open] fails it has changed no file. *)
Theorem copyfile_return_value :
  forall (w : copy_world) (fs : filesystem) (source dest : String.string),
    (copy_ret (zc_copyfile w fs source dest) = 0 \/
     copy_ret (zc_copyfile w fs source dest) = -1) /\
    (copy_ret (zc_copyfile w fs source dest) = 0 <->
     open_source_ok w = true /\ source_fstat_ok w = true /\
     open_dest_ok w = true /\ dest_ftruncate_ok w = true /\
     copy_reports w <> None /\ dest_close_ok w = true) /\
    (open_source_ok w = false ->
     copy_fs (zc_copyfile w fs source dest) = fs /\
     unclosed (zc_copyfile w fs source dest) = []).
Proof.
  intros w fs source dest. unfold zc_copyfile.
  destruct (open_source_ok w), (source_fstat_ok w), (open_dest_ok w),
           (dest_ftruncate_ok w), (copy_reports w), (dest_close_ok w);
    cbn [negb copy_ret copy_fs unclosed];
    (split; [auto|]); (split; [|intros H; try discriminate; auto]);
    split; intros H; try discriminate; try lia;
    repeat split; try congruence;
    repeat match goal with
           | H : _ /\ _ |- _ => destruct H
           end; try discriminate; try congruence.
Qed.

(** X21. [zc_copyfile] never closes the descriptor of [source]: it is
    still open at every return that follows a successful [open] of it,
    the successful return included.  The descriptor of [dest] is left
    open exactly when [ftruncate] or [copy_file_range] fails. *)
Theorem copyfile_leaves_source_open :
  forall (w : copy_world) (fs : filesystem) (source dest : String.string),
    source <> dest ->
    (In source (unclosed (zc_copyfile w fs source dest)) <->
     open_source_ok w = true) /\
    (In dest (unclosed (zc_copyfile w fs source dest)) <->
     open_source_ok w = true /\ source_fstat_ok w = true /\
     open_dest_ok w = true /\
     (dest_ftruncate_ok w = false \/ copy_reports w = None)).
Proof.
  intros w fs source dest Hne. unfold zc_copyfile.
  destruct (open_source_ok w), (source_fstat_ok w), (open_dest_ok w),
           (dest_ftruncate_ok w), (copy_reports w), (dest_close_ok w);
    cbn [negb unclosed In];
    split; split; intros H;
    repeat match goal with
           | H : _ /\ _ |- _ => destruct H
           | H : _ \/ _ |- _ => destruct H
           | H : False |- _ => destruct H
           end;
    try discriminate; try congruence; auto 6.
Qed.

Lemma copyfile_leaves_source_open_witness :
  path_a <> path_b /\
  In path_a (unclosed (zc_copyfile (copying 3) two_files path_a path_b)).
Proof.
  assert (Hne : path_a <> path_b) by discriminate.
  split; [exact Hne|].
  destruct (copyfile_leaves_source_open (copying 3) two_files path_a path_b
              Hne) as [Hsrc _].
  apply Hsrc. reflexivity.
Defined.

(** X22. A failed copy can still have changed [dest]: when
    [copy_file_range] fails after [ftruncate] has succeeded,
    [zc_copyfile] returns -1 with [dest] cut or zero-padded to the length
    of [source]; and when only the final [close] fails it returns -1
    although [dest] already holds what was copied. *)
Theorem copyfile_failure_after_truncate :
  forall (w : copy_world) (fs : filesystem) (source dest : String.string),
    source <> dest ->
    open_source_ok w = true -> source_fstat_ok w = true ->
    open_dest_ok w = true -> dest_ftruncate_ok w = true ->
    (copy_reports w = None ->
     copy_ret (zc_copyfile w fs source dest) = -1 /\
     copy_fs (zc_copyfile w fs source dest) dest
     = Some (resize (length (contents fs source)) (contents fs dest))) /\
    (forall reported,
       copy_reports w = Some reported -> dest_close_ok w = false ->
       (length (contents fs source) <= reported)%nat ->
       copy_ret (zc_copyfile w fs source dest) = -1 /\
       copy_fs (zc_copyfile w fs source dest) dest
       = Some (contents fs source)).
Proof.
  intros w fs source dest Hne Ho Hf Hd Ht.
  assert (Hsrc1 : contents (open_creat fs source) source
                  = contents fs source).
  { unfold contents at 1. rewrite open_creat_same. reflexivity. }
  assert (Hdst2 : contents (open_creat (open_creat fs source) dest) dest
                  = contents fs dest).
  { unfold contents at 1. rewrite open_creat_same.
    unfold contents. rewrite open_creat_other by congruence. reflexivity. }
  split.
  - intros Hc. unfold zc_copyfile. rewrite Ho, Hf, Hd, Ht, Hc.
    cbn [negb copy_ret copy_fs]. split; [reflexivity|].
    rewrite fs_set_same, Hsrc1, Hdst2. reflexivity.
  - intros reported Hc Hcl Hall.
    pose (w' := mk_copy_world true true true true (Some reported) true).
    destruct (copyfile_when_calls_succeed w' fs source dest reported
                Hne eq_refl eq_refl eq_refl eq_refl eq_refl eq_refl)
      as (_ & Hdest & _).
    rewrite whole_copy_bytes in Hdest by exact Hall.
    revert Hdest. unfold zc_copyfile, w'. rewrite Ho, Hf, Hd, Ht, Hc, Hcl.
    cbn [negb copy_ret copy_fs open_source_ok source_fstat_ok open_dest_ok
         dest_ftruncate_ok copy_reports dest_close_ok].
    intros Hdest. split; [reflexivity | exact Hdest].
Qed.

Lemma copyfile_failure_after_truncate_witness :
  path_b <> path_a /\
  copy_ret (zc_copyfile (mk_copy_world true true true true None true)
                        two_files path_a path_b) = -1 /\
  copy_fs (zc_copyfile (mk_copy_world true true true true None true)
                       two_files path_a path_b) path_b
  = Some [x68; x65; x6c].
Proof.
  assert (Hne : path_a <> path_b) by discriminate.
  split; [congruence|].
  destruct (copyfile_failure_after_truncate
              (mk_copy_world true true true true None true)
              two_files path_a path_b Hne eq_refl eq_refl eq_refl eq_refl)
    as [Hfail _].
  destruct (Hfail eq_refl) as [Hret Hdest].
  split; [exact Hret|]. rewrite Hdest. vm_compute. reflexivity.
Defined.

(** X23. Asked to copy a file that does not exist, [zc_copyfile] creates
    it: once the first [open] has succeeded an empty [source] exists,
    whatever happens next; and when every call succeeds [dest] ends up
    empty and 0 is returned. *)
Theorem copyfile_creates_missing_source :
  forall (w : copy_world) (fs : filesystem) (source dest : String.string),
    source <> dest ->
    fs source = None -> open_source_ok w = true ->
    copy_fs (zc_copyfile w fs source dest) source = Some [] /\
    (source_fstat_ok w = true -> open_dest_ok w = true ->
     dest_ftruncate_ok w = true -> copy_reports w <> None ->
     dest_close_ok w = true ->
     copy_ret (zc_copyfile w fs source dest) = 0 /\
     copy_fs (zc_copyfile w fs source dest) dest = Some []).
Proof.
  intros w fs source dest Hne Hmissing Ho.
  assert (Hempty : contents fs source = [])
    by (unfold contents; rewrite Hmissing; reflexivity).
  assert (Hs1 : open_creat fs source source = Some []).
  { rewrite open_creat_same, Hempty. reflexivity. }
  split.
  - unfold zc_copyfile. rewrite Ho. cbn [negb].
    destruct (source_fstat_ok w); cbn [negb copy_fs]; [|exact Hs1].
    destruct (open_dest_ok w); cbn [negb copy_fs]; [|exact Hs1].
    assert (Hs2 : open_creat (open_creat fs source) dest source = Some [])
      by (rewrite open_creat_other by exact Hne; exact Hs1).
    destruct (dest_ftruncate_ok w); cbn [negb copy_fs]; [|exact Hs2].
    destruct (copy_reports w); cbn [copy_fs].
    + destruct (dest_close_ok w); cbn [negb copy_fs];
        rewrite !fs_set_other by exact Hne; exact Hs2.
    + rewrite fs_set_other by exact Hne. exact Hs2.
  - intros Hf Hd Ht Hc Hcl.
    destruct (copy_reports w) as [reported|] eqn:Hr; [|contradiction].
    destruct (copyfile_when_calls_succeed w fs source dest reported
                Hne Ho Hf Hd Ht Hr Hcl) as (Hret & Hdest & _).
    split; [exact Hret|]. rewrite Hdest, Hempty. simpl.
    rewrite Nat.min_0_r. reflexivity.
Qed.

Lemma copyfile_creates_missing_source_witness :
  (path_c <> path_b /\ two_files path_c = None) /\
  copy_fs (zc_copyfile (copying 0) two_files path_c path_b) path_c = Some [] /\
  copy_fs (zc_copyfile (copying 0) two_files path_c path_b) path_b = Some [].
Proof.
  assert (Hne : path_c <> path_b) by discriminate.
  assert (Hmiss : two_files path_c = None) by reflexivity.
  split; [auto|].
  destruct (copyfile_creates_missing_source (copying 0) two_files
              path_c path_b Hne Hmiss eq_refl) as [Hsrc Hall].
  split; [exact Hsrc|].
  assert (Hc : copy_reports (copying 0) <> None) by discriminate.
  exact (proj2 (Hall eq_refl eq_refl eq_refl Hc eq_refl)).
Defined.

(** ** More about the pool *)

Lemma total_more_facts (l : list pc) :
  0 <= total past_room l /\
  total counted l <= total entering l + total past_room l /\
  total readers l <= total past_room l /\
  0 <= total remaining l /\
  total writers l <= total remaining l /\
  total holds_mutex l <= total remaining l /\
  total counted l <= total remaining l /\
  0 <= total entering l.
Proof.
  induction l as [|p l IH]; [simpl; lia|].
  cbn [total]. destruct p; weigh; cbv [past_room remaining] in *; lia.
Qed.

(** A pool whose weight is positive has a thread that weighs. *)
Lemma total_find (w : pc -> Z) (l : list pc) :
  0 < total w l ->
  exists (before after : list pc) (p : pc),
    l = before ++ p :: after /\ 0 < w p.
Proof.
  induction l as [|q l IH]; cbn [total]; intros H; [lia|].
  destruct (Z_lt_le_dec 0 (w q)) as [Hq|Hq].
  - exists [], l, q. split; [reflexivity | exact Hq].
  - destruct IH as (before & after & p & -> & Hp); [lia|].
    exists (q :: before), after, p. split; [reflexivity | exact Hp].
Qed.

Lemma read_window_weighs (l : list pc) (i : nat) (p : pc) :
  nth_error l i = Some p -> in_read_window p = true ->
  1 <= total readers l.
Proof.
  intros Hi Hp.
  assert (Hr : forall r, 0 <= readers r)
    by (intros r; unfold readers; destruct (in_read_window r); simpl; lia).
  pose proof (total_one readers l i p Hr Hi) as H.
  unfold readers at 1 in H. rewrite Hp in H. exact H.
Qed.

Lemma write_window_weighs (l : list pc) (i : nat) (p : pc) :
  nth_error l i = Some p -> in_write_window p = true ->
  1 <= total writers l.
Proof.
  intros Hi Hp.
  assert (Hw : forall r, 0 <= writers r)
    by (intros r; unfold writers; destruct (in_write_window r); simpl; lia).
  pose proof (total_one writers l i p Hw Hi) as H.
  unfold writers at 1 in H. rewrite Hp in H. exact H.
Qed.

(** X24. While any thread is inside a read window or a write window the
    room is taken: in every reachable state with such a thread
    [room_empty] is 0, so a thread waiting for the room in
    [zc_write_start], in [zc_lseek] or as first reader in
    [zc_read_start] has no move. *)
Theorem open_window_blocks_the_room :
  forall (threads : nat) (st : pool_state) (i : nat) (p : pc),
    Z.of_nat threads <= INT_MAX ->
    reachable threads st ->
    nth_error (snd st) i = Some p ->
    in_read_window p = true \/ in_write_window p = true ->
    s_room_empty (fst st) = 0 /\
    thread_step (fst st) WS_wait_room = [] /\
    thread_step (fst st) LS_wait_room = [] /\
    thread_step (fst st) RS_wait_room = [].
Proof.
  intros threads st i p Hn Hreach Hi Hp.
  destruct (sync_inv_reachable threads st Hn Hreach)
    as [Hmx Hcnt Hroom Hfirst Hlast Hent Hlv Hgrp].
  pose proof (total_facts (snd st)) as F.
  assert (Hzero : s_room_empty (fst st) = 0).
  { destruct Hp as [Hp|Hp].
    - pose proof (read_window_weighs _ _ _ Hi Hp). lia.
    - pose proof (write_window_weighs _ _ _ Hi Hp). lia. }
  split; [exact Hzero|].
  cbn [thread_step]. rewrite Hzero. auto.
Qed.

Lemma open_window_blocks_the_room_witness :
  (Z.of_nat 2 <= INT_MAX /\
   reachable 2 (mk_sync 1 0 0, [Writing; Idle])) /\
  thread_step (mk_sync 1 0 0) RS_wait_room = [].
Proof.
  assert (Hn : Z.of_nat 2 <= INT_MAX) by (unfold_limits; lia).
  assert (Hr : reachable 2 (mk_sync 1 0 0, [Writing; Idle])).
  { unfold reachable, initial, sem_init. cbn [repeat].
    apply (steps_cons _ (mk_sync 1 1 0, [WS_wait_room; Idle])).
    - apply (step_thread _ _ Idle WS_wait_room [] [Idle]).
      simpl. right. left. reflexivity.
    - apply (steps_cons _ (mk_sync 1 0 0, [Writing; Idle])).
      + apply (step_thread _ _ WS_wait_room Writing [] [Idle]).
        simpl. left. reflexivity.
      + apply steps_refl. }
  split; [auto|].
  destruct (open_window_blocks_the_room 2 (mk_sync 1 0 0, [Writing; Idle])
              0%nat Writing Hn Hr eq_refl (or_intror eq_refl))
    as (_ & _ & _ & Hblocked).
  exact Hblocked.
Defined.

(** X25. In every reachable state both semaphores hold 0 or 1, at most
    one thread is between its [sem_wait] and its [sem_post] on the
    counter mutex (and then the mutex is 0), and [n_readers] is exactly
    the number of threads that have incremented it and not yet
    decremented it. *)
Theorem semaphores_stay_binary :
  forall (threads : nat) (st : pool_state),
    Z.of_nat threads <= INT_MAX ->
    reachable threads st ->
    0 <= s_mutex (fst st) <= 1 /\
    0 <= s_room_empty (fst st) <= 1 /\
    s_mutex (fst st) = 1 - total holds_mutex (snd st) /\
    s_n_readers (fst st) = total counted (snd st) /\
    0 <= s_n_readers (fst st) <= Z.of_nat threads.
Proof.
  intros threads st Hn Hreach.
  destruct (sync_inv_reachable threads st Hn Hreach)
    as [Hmx Hcnt Hroom Hfirst Hlast Hent Hlv Hgrp].
  pose proof (total_facts (snd st)) as F.
  assert (Hlen : length (snd st) = threads).
  { clear - Hreach. unfold reachable in Hreach.
    remember (initial threads) as st0 eqn:E.
    assert (H0 : length (snd st0) = threads)
      by (subst st0; unfold initial; cbn [snd]; apply repeat_length).
    clear E. induction Hreach as [st | st1 st2 st3 Hstep _ IH];
      [exact H0|].
    apply IH. destruct Hstep. cbn [snd] in *.
    rewrite length_app in *. cbn [length] in *. exact H0. }
  rewrite Hlen in F. lia.
Qed.

Lemma semaphores_stay_binary_witness :
  Z.of_nat 3 <= INT_MAX /\
  s_n_readers (fst (mk_sync 1 0 3, [Reading; Reading; Reading]))
  = total counted (snd (mk_sync 1 0 3, [Reading; Reading; Reading])).
Proof.
  assert (Hn : Z.of_nat 3 <= INT_MAX) by (unfold_limits; lia).
  split; [exact Hn|].
  assert (Hr : reachable 3 (mk_sync 1 0 3, [Reading; Reading; Reading]))
    by (apply (readers_together 0 3); exact Hn).
  destruct (semaphores_stay_binary 3 _ Hn Hr) as (_ & _ & _ & Hc & _).
  exact Hc.
Defined.

Lemma step_length (st st' : pool_state) :
  step st st' -> length (snd st') = length (snd st).
Proof.
  intros H. destruct H. cbn [snd]. rewrite !length_app. reflexivity.
Qed.

(** Once lost, the room stays lost. *)
Lemma room_lost_step (st st' : pool_state) :
  Z.of_nat (length (snd st)) <= INT_MAX ->
  sync_inv st -> room_lost st -> step st st' -> room_lost st'.
Proof.
  intros Hlen Hinv Hlost Hstep.
  destruct Hstep as [s s' p p' before after Hin].
  destruct Hinv as [Hmx Hcnt Hroom Hfirst Hlast Hent Hlv Hgrp].
  destruct Hlost as [Lr Lw Lp].
  destruct s as [m r n].
  cbn [fst snd s_mutex s_room_empty s_n_readers] in *.
  rewrite !total_split in *.
  pose proof (total_facts before) as Fb.
  pose proof (total_facts after) as Fa.
  pose proof (total_more_facts before) as Gb.
  pose proof (total_more_facts after) as Ga.
  destruct p; cbn [thread_step s_mutex s_room_empty s_n_readers] in Hin;
    unfold sem_wait, sem_post in Hin;
    try match type of Hin with
        | context [0 <? ?x] => destruct (Z.ltb_spec 0 x)
        end;
    try match type of Hin with
        | context [?x =? ?y] => destruct (Z.eqb_spec x y)
        end;
    cbn [In] in Hin; split_moves Hin; injection Hin as <- <-;
    (constructor;
     cbn [fst snd s_mutex s_room_empty s_n_readers];
     rewrite ?total_split; weigh; cbv [past_room remaining] in *; lia).
Qed.

Lemma room_lost_steps (st st' : pool_state) :
  Z.of_nat (length (snd st)) <= INT_MAX ->
  sync_inv st -> room_lost st -> steps st st' -> room_lost st'.
Proof.
  intros Hlen Hinv Hlost Hsteps.
  induction Hsteps as [st | st1 st2 st3 Hstep _ IH]; [exact Hlost|].
  apply IH.
  - rewrite (step_length st1 st2 Hstep). exact Hlen.
  - apply (sync_inv_step st1 st2); assumption.
  - apply (room_lost_step st1 st2); assumption.
Qed.

Lemma room_lost_no_window (st : pool_state) :
  room_lost st -> no_window_open st.
Proof.
  intros [Lr Lw Lp] i p Hi.
  pose proof (total_more_facts (snd st)) as G.
  destruct (in_read_window p) eqn:Hr.
  - pose proof (read_window_weighs _ _ _ Hi Hr). lia.
  - destruct (in_write_window p) eqn:Hw; [|auto].
    pose proof (write_window_weighs _ _ _ Hi Hw). lia.
Qed.

(** One thread has its seek rejected; every thread is idle again. *)
Lemma rejected_seek_run (threads : nat) :
  steps (initial (S threads)) (mk_sync 1 0 0, repeat Idle (S threads)).
Proof.
  unfold initial, sem_init. cbn [repeat].
  apply (steps_cons _ (mk_sync 1 1 0, LS_wait_room :: repeat Idle threads)).
  { apply (step_thread _ _ Idle LS_wait_room [] (repeat Idle threads)).
    simpl. right. right. left. reflexivity. }
  apply (steps_cons _ (mk_sync 1 0 0, Seeking :: repeat Idle threads)).
  { apply (step_thread _ _ LS_wait_room Seeking [] (repeat Idle threads)).
    simpl. left. reflexivity. }
  apply (steps_cons _ (mk_sync 1 0 0, Idle :: repeat Idle threads)).
  { apply (step_thread _ _ Seeking Idle [] (repeat Idle threads)).
    simpl. right. left. reflexivity. }
  apply steps_refl.
Qed.

(** X26. One rejected seek is enough to lose the handle for good: the
    state in which a thread has had its seek rejected and every thread is
    idle again is reachable, and from it no run ever brings any thread
    into a read window or a write window; the room stays at 0. *)
Theorem rejected_seek_loses_the_room :
  forall (threads : nat) (st : pool_state),
    Z.of_nat (S threads) <= INT_MAX ->
    steps (mk_sync 1 0 0, repeat Idle (S threads)) st ->
    reachable (S threads) (mk_sync 1 0 0, repeat Idle (S threads)) /\
    s_room_empty (fst st) = 0 /\
    no_window_open st.
Proof.
  intros threads st Hn Hrun.
  pose proof (rejected_seek_run threads) as Hreach.
  split; [exact Hreach|].
  assert (Hinv : sync_inv (mk_sync 1 0 0, repeat Idle (S threads)))
    by (apply (sync_inv_reachable (S threads)); assumption).
  assert (Hlost : room_lost (mk_sync 1 0 0, repeat Idle (S threads))).
  { constructor; cbn [fst snd s_room_empty]; rewrite ?total_repeat;
      weigh; cbv [past_room remaining] in *; lia. }
  assert (Hlen : Z.of_nat (length (snd (mk_sync 1 0 0,
                                        repeat Idle (S threads))))
                 <= INT_MAX)
    by (cbn [snd]; rewrite repeat_length; exact Hn).
  pose proof (room_lost_steps _ st Hlen Hinv Hlost Hrun) as Hst.
  split; [apply Hst | apply room_lost_no_window; exact Hst].
Qed.

Lemma rejected_seek_loses_the_room_witness :
  (Z.of_nat 2 <= INT_MAX /\
   steps (mk_sync 1 0 0, [Idle; Idle]) (mk_sync 1 0 0, [WS_wait_room; Idle])) /\
  thread_step (mk_sync 1 0 0) WS_wait_room = [] /\
  no_window_open (mk_sync 1 0 0, [WS_wait_room; Idle]).
Proof.
  assert (Hn : Z.of_nat 2 <= INT_MAX) by (unfold_limits; lia).
  assert (Hrun : steps (mk_sync 1 0 0, [Idle; Idle])
                       (mk_sync 1 0 0, [WS_wait_room; Idle])).
  { apply (steps_cons _ (mk_sync 1 0 0, [WS_wait_room; Idle])).
    - apply (step_thread _ _ Idle WS_wait_room [] [Idle]).
      simpl. right. left. reflexivity.
    - apply steps_refl. }
  split; [auto|]. split; [reflexivity|].
  destruct (rejected_seek_loses_the_room 1 _ Hn Hrun) as (_ & _ & Hno).
  exact Hno.
Defined.

(** ** Draining the pool *)

Lemma accepting_is_step (st st' : pool_state) :
  accepting_step st st' -> step st st'.
Proof. intros H. destruct H. apply step_thread. assumption. Qed.

Lemma accepting_are_steps (st st' : pool_state) :
  accepting_steps st st' -> steps st st'.
Proof.
  induction 1 as [st | st1 st2 st3 Hstep _ IH]; [apply steps_refl|].
  apply (steps_cons st1 st2 st3); [apply accepting_is_step|]; assumption.
Qed.

Lemma accepting_trans (st1 st2 st3 : pool_state) :
  accepting_steps st1 st2 -> accepting_steps st2 st3 ->
  accepting_steps st1 st3.
Proof.
  induction 1 as [st | sa sb sc Hstep _ IH]; intros H; [exact H|].
  apply (accepting_cons sa sb st3 Hstep). apply IH. exact H.
Qed.

Lemma room_kept_initial (threads : nat) : room_kept (initial threads).
Proof.
  unfold initial, sem_init.
  constructor; cbn [fst snd s_n_readers s_room_empty];
    rewrite ?total_repeat; weigh; cbv [past_room remaining] in *; lia.
Qed.

(** A move that is not a rejected seek does not lose the room. *)
Lemma room_kept_step (st st' : pool_state) :
  Z.of_nat (length (snd st)) <= INT_MAX ->
  sync_inv st -> room_kept st -> accepting_step st st' -> room_kept st'.
Proof.
  intros Hlen Hinv Hkept Hstep.
  destruct Hstep as [s s' p p' before after Hin Hacc].
  destruct Hinv as [Hmx Hcnt Hroom Hfirst Hlast Hent Hlv Hgrp].
  destruct Hkept as [Ke Kf].
  destruct s as [m r n].
  cbn [fst snd s_mutex s_room_empty s_n_readers] in *.
  rewrite length_app in Hlen. cbn [length] in Hlen.
  rewrite !total_split in *.
  pose proof (total_facts before) as Fb.
  pose proof (total_facts after) as Fa.
  unfold INT_MAX, two_31 in Hlen.
  destruct p; cbn [thread_step s_mutex s_room_empty s_n_readers] in Hin;
    unfold sem_wait, sem_post in Hin;
    try match type of Hin with
        | context [0 <? ?x] => destruct (Z.ltb_spec 0 x)
        end;
    try match type of Hin with
        | context [?x =? ?y] => destruct (Z.eqb_spec x y)
        end;
    cbn [In] in Hin; split_moves Hin; injection Hin as <- <-;
    try (specialize (Hacc eq_refl); discriminate Hacc);
    (constructor;
     cbn [fst snd s_mutex s_room_empty s_n_readers];
     rewrite !total_split; weigh; cbv [past_room remaining] in *;
     rewrite ?to_int_id by (unfold INT_MAX, two_31; lia);
     lia).
Qed.

(** While the room is kept, a pool with a thread that is not idle has a
    thread that can move towards being idle: a writer inside its window
    if there is one, else the thread that holds the mutex, else a reader
    inside its window, else any thread that has begun a call. *)
Lemma room_kept_progress (st : pool_state) :
  sync_inv st -> room_kept st ->
  0 < total remaining (snd st) ->
  exists st',
    accepting_step st st' /\
    total remaining (snd st') < total remaining (snd st).
Proof.
  intros Hinv Hkept Hbusy.
  destruct Hinv as [Hmx Hcnt Hroom Hfirst Hlast Hent Hlv Hgrp].
  destruct Hkept as [Ke Kf].
  destruct st as [[m r n] l].
  cbn [fst snd s_mutex s_room_empty s_n_readers] in *.
  assert (Hfind :
            exists (before after : list pc) (p : pc),
              l = before ++ p :: after /\
              (0 < writers p \/
               (total writers l <= 0 /\ 0 < holds_mutex p) \/
               (total writers l <= 0 /\ total holds_mutex l <= 0 /\
                0 < counted p) \/
               (total writers l <= 0 /\ total holds_mutex l <= 0 /\
                total counted l <= 0 /\ 0 < remaining p))).
  { destruct (Z_lt_le_dec 0 (total writers l)) as [HX|HX].
    { destruct (total_find writers l HX) as (b & a & p & E & Hp).
      exists b, a, p. split; [exact E | left; exact Hp]. }
    destruct (Z_lt_le_dec 0 (total holds_mutex l)) as [HM|HM].
    { destruct (total_find holds_mutex l HM) as (b & a & p & E & Hp).
      exists b, a, p.
      split; [exact E | right; left; split; assumption]. }
    destruct (Z_lt_le_dec 0 (total counted l)) as [HC|HC].
    { destruct (total_find counted l HC) as (b & a & p & E & Hp).
      exists b, a, p.
      split; [exact E | right; right; left; repeat split; assumption]. }
    destruct (total_find remaining l Hbusy) as (b & a & p & E & Hp).
    exists b, a, p.
    split; [exact E | right; right; right; repeat split; assumption]. }
  destruct Hfind as (before & after & p & -> & Hp).
  rewrite !total_split in *.
  pose proof (total_facts before) as Fb.
  pose proof (total_facts after) as Fa.
  destruct p;
    first
      [ solve [exfalso; weigh; cbv [remaining] in *; lia]
      | eexists; split;
        [ eapply accepting_thread;
          [ cbn [thread_step s_mutex s_room_empty s_n_readers];
            unfold sem_wait;
            try match goal with
                | |- context [0 <? ?x] =>
                  destruct (Z.ltb_spec 0 x);
                  [|exfalso; weigh; cbv [remaining] in *; lia]
                end;
            cbn [In]; left; reflexivity
          | intros E; first [discriminate E | reflexivity] ]
        | cbn [snd]; rewrite !total_split;
          try match goal with
              | |- context [?x =? ?y] => destruct (x =? y)
              end;
          weigh; cbv [remaining] in *; lia ] ].
Qed.

Lemma remaining_zero_idle (l : list pc) :
  total remaining l = 0 -> l = repeat Idle (length l).
Proof.
  induction l as [|p l IH]; [reflexivity|].
  cbn [total length repeat]. intros H.
  pose proof (total_more_facts l) as G.
  assert (Hp : remaining p = 0 /\ total remaining l = 0)
    by (destruct p; weigh; cbv [past_room remaining] in *; lia).
  destruct Hp as [Hp Hl]. rewrite <- (IH Hl).
  destruct p; try reflexivity; discriminate Hp.
Qed.

(** By moves that are not rejected seeks, every thread can be brought
    back to idle. *)
Lemma room_kept_drains (k : nat) (st : pool_state) :
  total remaining (snd st) <= Z.of_nat k ->
  Z.of_nat (length (snd st)) <= INT_MAX ->
  sync_inv st -> room_kept st ->
  exists st',
    accepting_steps st st' /\ total remaining (snd st') = 0 /\
    sync_inv st' /\ room_kept st' /\
    length (snd st') = length (snd st).
Proof.
  revert st. induction k as [|k IH]; intros st Hk Hlen Hinv Hkept.
  - pose proof (total_more_facts (snd st)) as G.
    exists st. split; [apply accepting_refl|].
    split; [lia|]. auto.
  - destruct (Z_lt_le_dec 0 (total remaining (snd st))) as [Hbusy|Hdone].
    + destruct (room_kept_progress st Hinv Hkept Hbusy)
        as (st1 & Hstep & Hless).
      pose proof (accepting_is_step st st1 Hstep) as Hstep'.
      assert (Hlen1 : length (snd st1) = length (snd st))
        by (apply step_length; exact Hstep').
      destruct (IH st1) as (st' & Hrun & Hzero & Hinv' & Hkept' & Hlen').
      * lia.
      * rewrite Hlen1. exact Hlen.
      * apply (sync_inv_step st st1); assumption.
      * apply (room_kept_step st st1); assumption.
      * exists st'. split; [apply (accepting_cons st st1 st'); assumption|].
        split; [exact Hzero|]. split; [exact Hinv'|].
        split; [exact Hkept'|]. congruence.
    + pose proof (total_more_facts (snd st)) as G.
      exists st. split; [apply accepting_refl|].
      split; [lia|]. auto.
Qed.

Lemma accepting_keeps (threads : nat) (st : pool_state) :
  Z.of_nat threads <= INT_MAX ->
  accepting_steps (initial threads) st ->
  sync_inv st /\ room_kept st /\ length (snd st) = threads.
Proof.
  intros Hn Hrun.
  remember (initial threads) as st0 eqn:E.
  assert (H0 : sync_inv st0 /\ room_kept st0 /\ length (snd st0) = threads).
  { subst st0. split; [apply sync_inv_initial|].
    split; [apply room_kept_initial|].
    unfold initial. cbn [snd]. apply repeat_length. }
  clear E. induction Hrun as [st | st1 st2 st3 Hstep _ IH]; [exact H0|].
  destruct H0 as (Hinv & Hkept & Hlen).
  pose proof (accepting_is_step st1 st2 Hstep) as Hstep'.
  apply IH. split; [|split].
  - apply (sync_inv_step st1 st2); try assumption. rewrite Hlen. exact Hn.
  - apply (room_kept_step st1 st2); try assumption. rewrite Hlen. exact Hn.
  - rewrite (step_length st1 st2 Hstep'). exact Hlen.
Qed.

(** X27. As long as no seek is rejected the pool cannot get stuck: from
    every state it reaches, the threads can finish what they have begun,
    again without a rejected seek, and that leaves every thread idle and
    the handle's semaphores and counter as [zc_open] set them. *)
Theorem pool_drains_without_rejected_seek :
  forall (threads : nat) (st : pool_state),
    Z.of_nat threads <= INT_MAX ->
    accepting_steps (initial threads) st ->
    accepting_steps st (initial threads).
Proof.
  intros threads st Hn Hrun.
  destruct (accepting_keeps threads st Hn Hrun) as (Hinv & Hkept & Hlen).
  pose proof (total_more_facts (snd st)) as G.
  destruct (room_kept_drains (Z.to_nat (total remaining (snd st))) st)
    as (st' & Hdrain & Hzero & Hinv' & Hkept' & Hlen'); try assumption.
  - lia.
  - rewrite Hlen. exact Hn.
  - assert (Hst' : st' = initial threads).
    { destruct st' as [[m r n] l]. cbn [snd] in *.
      pose proof (remaining_zero_idle l Hzero) as Hl.
      rewrite Hlen', Hlen in Hl. subst l.
      destruct Hinv' as [Hmx Hcnt Hroom Hfirst Hlast Hent Hlv Hgrp].
      destruct Hkept' as [Ke Kf].
      cbn [fst snd s_mutex s_room_empty s_n_readers] in *.
      rewrite ?total_repeat in *.
      unfold initial, sem_init.
      assert (Hvals : m = 1 /\ r = 1 /\ n = 0) by (weigh; cbv [past_room remaining] in *; lia).
      destruct Hvals as (-> & -> & ->). reflexivity. }
    rewrite <- Hst'. exact Hdrain.
Qed.

Lemma pool_drains_without_rejected_seek_witness :
  Z.of_nat 2 <= INT_MAX /\
  accepting_steps (mk_sync 1 0 0, [Writing; Idle]) (initial 2).
Proof.
  assert (Hn : Z.of_nat 2 <= INT_MAX) by (unfold_limits; lia).
  split; [exact Hn|].
  apply (pool_drains_without_rejected_seek 2 _ Hn).
  unfold initial, sem_init. cbn [repeat].
  apply (accepting_cons _ (mk_sync 1 1 0, [WS_wait_room; Idle])).
  - apply (accepting_thread _ _ Idle WS_wait_room [] [Idle]).
    + simpl. right. left. reflexivity.
    + discriminate.
  - apply (accepting_cons _ (mk_sync 1 0 0, [Writing; Idle])).
    + apply (accepting_thread _ _ WS_wait_room Writing [] [Idle]).
      * simpl. left. reflexivity.
      * discriminate.
    + apply accepting_refl.
Defined.
